(** * Healthcare plans: the simulation engine

    A shallow embedding of [.history/simulation/engine_20251122212855.py]
    (class [SimulationEngine], the latest revision of the engine):
    the Poisson visit generator, the twelve-month billing loop, the
    rational plan choice, the result table and the report of [analyze].

    Conventions of the embedding.
    - Money and visit counts are integers ([Z]).  The catalog of the source
      holds Python ints, and the float accumulators ([0.0] plus ints) hold
      integer values, which binary64 represents exactly below 2^53.
    - Values of [random.random()], the rate [lam] and the threshold
      [math.exp(-lam)] are real numbers ([R]).
    - The interpreter state the engine touches is a [World]: the flag
      [USE_NUMPY], the values the two random generators are going to
      return, and the table [simulation_results] of the database file. *)

From Stdlib Require Import ZArith List String Bool Reals Lra Lia.
From Stdlib Require Import Sorted Permutation.
Import ListNotations.

Local Open Scope string_scope.
Local Open Scope list_scope.
Local Open Scope Z_scope.

(** ** Data *)

(** [plan['included']] is an int or [float('inf')]. *)
Inductive visit_cap : Type :=
| Visits (n : Z)
| Inf.

(** One entry of [self.plans]. *)
Record plan : Type := mkPlan {
  name : string;
  price : Z;
  included : visit_cap;
  extra : Z
}.

(** The attributes of a [SimulationEngine] that [run] reads. *)
Record SimulationEngine : Type := mkEngine {
  db_path : string;
  cost_per_visit : Z;
  plans : list plan
}.

Definition __init__ (path : string) : SimulationEngine :=
  {| db_path := path;
     cost_per_visit := 30;
     plans :=
       [ mkPlan "Lite Plan" 20 (Visits 2) 15;
         mkPlan "Standard Plan" 50 (Visits 6) 10;
         mkPlan "Chronic Care Plan" 90 (Visits 12) 5;
         mkPlan "Unlimited Plan" 150 Inf 0 ] |}.

Definition default_engine : SimulationEngine :=
  __init__ "healthcare_simulation.db".

(** A tuple appended to [data_rows], a record of [simulation_results]. *)
Record row : Type := mkRow {
  user_id : Z;
  user_type : string;
  annual_visits : Z;
  chosen_plan : string;
  user_annual_cost : Z;
  company_revenue : Z;
  company_cost : Z;
  company_profit : Z
}.

(** Python exceptions the engine can meet. *)
Inductive exn : Type :=
| ValueError
| KeyError
| TypeError
| OperationalError
| IntegrityError.

(** The interpreter state the engine reads and writes.  [USE_NUMPY] is
    set once, when the module is imported.  [py_random] holds the values the
    next calls of [random.random()] return; [np_random] holds what the next
    calls of [np.random.poisson] return, each as a function of the rate it
    is given; [table] is [simulation_results], absent until created. *)
Record World : Type := mkWorld {
  USE_NUMPY : bool;
  py_random : list R;
  np_random : list (R -> Z);
  table : option (list row)
}.

(** Result of running a piece of the engine: a value and the new world, a
    raised exception, or [Starved] when the supplied random values ran out
    before the code finished. *)
Inductive result (A : Type) : Type :=
| Ok (a : A) (w : World)
| Raise (e : exn)
| Starved.

Arguments Ok {A} a w.
Arguments Raise {A} e.
Arguments Starved {A}.

Definition M (A : Type) : Type := World -> result A.

Definition ret {A} (a : A) : M A := fun w => Ok a w.

Definition bind {A B} (m : M A) (f : A -> M B) : M B :=
  fun w =>
    match m w with
    | Ok a w' => f a w'
    | Raise e => Raise e
    | Starved => Starved
    end.

Definition raise {A} (e : exn) : M A := fun _ => Raise e.

Notation "x <- m ;; k" := (bind m (fun x => k))
  (at level 61, m at next level, right associativity).
Notation "m ;;; k" := (bind m (fun _ => k))
  (at level 61, right associativity).

(** ** The visit generator *)

(** The [while p > L] loop of the fallback: each turn takes one value of
    [random.random()]. *)
Fixpoint knuth_loop (L p : R) (k : Z) (draws : list R) : option (Z * list R) :=
  if Rgt_dec p L then
    match draws with
    | [] => None
    | u :: rest => knuth_loop L (p * u) (k + 1) rest
    end
  else Some (k - 1, draws).

Definition _generate_poisson_visit (lam : R) : M Z :=
  fun w =>
    if USE_NUMPY w then
      match np_random w with
      | [] => Starved
      | poisson :: rest =>
          Ok (poisson lam) (mkWorld true (py_random w) rest (table w))
      end
    else
      match knuth_loop (exp (- lam)) 1 0 (py_random w) with
      | Some (v, rest) => Ok v (mkWorld false rest (np_random w) (table w))
      | None => Starved
      end.

(** [random.random()]: the next supplied value. *)
Definition random : M R :=
  fun w =>
    match py_random w with
    | [] => Starved
    | u :: rest => Ok u (mkWorld (USE_NUMPY w) rest (np_random w) (table w))
    end.

(** ** The user segment *)

(** The [if / elif / else] on [rand_val]: the user type and its rate. *)
Definition segment (rand_val : R) : string * R :=
  if Rlt_dec rand_val (1 / 2) then ("Healthy", 1%R)
  else if Rlt_dec rand_val (4 / 5) then ("Average", 5%R)
  else ("Chronic", 12%R).

(** ** The dict [plan_annual_costs]

    A Python dict keeps its keys in insertion order, and assigning to a key
    that is present keeps the key where it is. *)
Definition dict : Type := list (string * Z).

Fixpoint dict_get (d : dict) (k : string) : option Z :=
  match d with
  | [] => None
  | (k', v) :: d' => if String.eqb k' k then Some v else dict_get d' k
  end.

Fixpoint dict_set (d : dict) (k : string) (v : Z) : dict :=
  match d with
  | [] => [(k, v)]
  | (k', v') :: d' =>
      if String.eqb k' k then (k', v) :: d' else (k', v') :: dict_set d' k v
  end.

(** [{p['name']: 0.0 for p in self.plans}] *)
Definition init_costs (ps : list plan) : dict :=
  fold_left (fun d p => dict_set d (name p) 0) ps [].

(** ** The bill of one month *)

Definition overage (p : plan) (monthly_visits : Z) : Z :=
  match included p with
  | Inf => 0
  | Visits n => Z.max 0 (monthly_visits - n)
  end.

Definition monthly_bill (p : plan) (monthly_visits : Z) : Z :=
  price p + overage p monthly_visits * extra p.

(** [for plan in self.plans: ... plan_annual_costs[plan['name']] += monthly_bill];
    [None] stands for the [KeyError] of reading an absent key. *)
Fixpoint bill_plans (ps : list plan) (monthly_visits : Z) (costs : dict)
  : option dict :=
  match ps with
  | [] => Some costs
  | p :: ps' =>
      match dict_get costs (name p) with
      | None => None
      | Some c =>
          bill_plans ps' monthly_visits
            (dict_set costs (name p) (c + monthly_bill p monthly_visits))
      end
  end.

(** The turns of [for _ in range(12)] that remain, from the current
    [plan_annual_costs] and [total_annual_visits]. *)
Fixpoint months (self : SimulationEngine) (n : nat) (lam : R)
    (costs : dict) (total : Z) : M (dict * Z) :=
  match n with
  | O => ret (costs, total)
  | S n' =>
      monthly_visits <- _generate_poisson_visit lam ;;
      match bill_plans (plans self) monthly_visits costs with
      | None => raise KeyError
      | Some costs' => months self n' lam costs' (total + monthly_visits)
      end
  end.

(** ** The rational choice *)

(** [min(d, key=d.get)] walks the keys in order, keeps the first one and
    replaces it only by a key of strictly smaller value; [d.get] of a key
    of [d] is the value stored with it. *)
Fixpoint min_from (best : string * Z) (d : dict) : string * Z :=
  match d with
  | [] => best
  | kv :: d' => min_from (if Z.ltb (snd kv) (snd best) then kv else best) d'
  end.

(** [None] stands for the [ValueError] of [min] on an empty dict. *)
Definition min_key (d : dict) : option string :=
  match d with
  | [] => None
  | kv :: d' => Some (fst (min_from kv d'))
  end.

(** ** One user: the body of [for user_id in range(1, num_users + 1)] *)

Definition simulate_user (self : SimulationEngine) (uid : Z) : M row :=
  rand_val <- random ;;
  let (utype, lam) := segment rand_val in
  r <- months self 12 lam (init_costs (plans self)) 0 ;;
  let (plan_annual_costs, total_annual_visits) := r in
  match min_key plan_annual_costs with
  | None => raise ValueError
  | Some best_plan_name =>
      match dict_get plan_annual_costs best_plan_name with
      | None => raise KeyError
      | Some cost =>
          let revenue := cost in
          let ccost := total_annual_visits * cost_per_visit self in
          let profit := revenue - ccost in
          ret (mkRow uid utype total_annual_visits best_plan_name
                     cost revenue ccost profit)
      end
  end.

(** ** The database *)

Definition with_table (w : World) (t : option (list row)) : World :=
  mkWorld (USE_NUMPY w) (py_random w) (np_random w) t.

(** [DROP TABLE IF EXISTS] followed by [CREATE TABLE]. *)
Definition setup_db : M unit :=
  fun w => Ok tt (with_table w (Some [])).

Fixpoint distinct (ids : list Z) : bool :=
  match ids with
  | [] => true
  | i :: ids' => negb (existsb (Z.eqb i) ids') && distinct ids'
  end.

(** [c.executemany('INSERT ...', data_rows)] and the commit: [user_id] is
    the primary key of the table. *)
Definition insert_rows (data_rows : list row) : M unit :=
  fun w =>
    match table w with
    | None => Raise OperationalError
    | Some t =>
        if distinct (map user_id (t ++ data_rows))
        then Ok tt (with_table w (Some (t ++ data_rows)))
        else Raise IntegrityError
    end.

(** ** [run] *)

(** [range(1, num_users + 1)] *)
Definition user_ids (num_users : Z) : list Z :=
  map Z.of_nat (seq 1 (Z.to_nat num_users)).

Fixpoint users_loop (self : SimulationEngine) (ids : list Z)
    (data_rows : list row) : M (list row) :=
  match ids with
  | [] => ret data_rows
  | uid :: ids' =>
      r <- simulate_user self uid ;;
      users_loop self ids' (data_rows ++ [r])
  end.

Definition run (self : SimulationEngine) (num_users : Z) : M unit :=
  setup_db ;;;
  data_rows <- users_loop self (user_ids num_users) [] ;;
  insert_rows data_rows.

(** ** [analyze] *)

(** SQL [SUM]: [NULL] over no record. *)
Definition sql_sum (xs : list Z) : option Z :=
  match xs with
  | [] => None
  | _ => Some (fold_right Z.add 0 xs)
  end.

(** [GROUP BY chosen_plan] with [COUNT( * )]: one group per plan name, in
    the order of the names. *)
Fixpoint count_into (k : string) (groups : list (string * nat))
  : list (string * nat) :=
  match groups with
  | [] => [(k, 1%nat)]
  | (k', c) :: g' =>
      if String.eqb k' k then (k', S c) :: g'
      else if String.ltb k k' then (k, 1%nat) :: groups
      else (k', c) :: count_into k g'
  end.

Definition group_count (t : list row) : list (string * nat) :=
  fold_left (fun g r => count_into (chosen_plan r) g) t [].

(** [ORDER BY COUNT( * ) DESC], groups of equal count left in group order. *)
Fixpoint insert_desc (kc : string * nat) (sorted : list (string * nat))
  : list (string * nat) :=
  match sorted with
  | [] => [kc]
  | kc' :: s' =>
      if Nat.ltb (snd kc') (snd kc) then kc :: sorted
      else kc' :: insert_desc kc s'
  end.

Definition order_by_count_desc (groups : list (string * nat))
  : list (string * nat) :=
  fold_right insert_desc [] groups.

(** What [analyze] prints: the total and the plan lines. *)
Record report : Type := mkReport {
  total_profit : Z;
  plan_selection : list (string * nat)
}.

(** [f"{total_profit:,.2f}"] raises [TypeError] when [fetchone()[0]] is
    [None]. *)
Definition analyze : M report :=
  fun w =>
    match table w with
    | None => Raise OperationalError
    | Some t =>
        match sql_sum (map company_profit t) with
        | None => Raise TypeError
        | Some total =>
            Ok (mkReport total (order_by_count_desc (group_count t))) w
        end
    end.


(** ** Reference notions used to state the properties *)

(** The visits of [n] successive months, drawn one call after the other. *)
Fixpoint draw_months (lam : R) (n : nat) : M (list Z) :=
  match n with
  | O => ret []
  | S n' =>
      v <- _generate_poisson_visit lam ;;
      vs <- draw_months lam n' ;;
      ret (v :: vs)
  end.

Definition sum_visits (vs : list Z) : Z := fold_right Z.add 0 vs.

(** The cost of a year under one plan, recomputed from the monthly visits. *)
Definition annual_cost (p : plan) (vs : list Z) : Z :=
  fold_right (fun v acc => monthly_bill p v + acc) 0 vs.

(** [plan_annual_costs] after the months [vs], when no read fails. *)
Definition acc_costs (ps : list plan) (vs : list Z) (costs : dict) : dict :=
  fold_left
    (fun c v => match bill_plans ps v c with Some c' => c' | None => c end)
    vs costs.

(** [p] is the first plan of [ps] whose value under [g] is minimal. *)
Definition first_min (g : plan -> Z) (ps : list plan) (p : plan) : Prop :=
  exists before after,
    ps = before ++ p :: after /\
    (forall q, In q before -> g p < g q) /\
    (forall q, In q after -> g p <= g q).

(** The economic identities of a result row for the visits [vs]. *)
Definition row_identities (self : SimulationEngine) (vs : list Z) (r : row)
  : Prop :=
  annual_visits r = sum_visits vs /\
  company_revenue r = user_annual_cost r /\
  company_cost r = annual_visits r * cost_per_visit self /\
  company_profit r = company_revenue r - company_cost r.

(** [r] is the row of a user whose twelve monthly draws were [vs]: the
    world [w] is the one at the start of the user's turn of the loop. *)
Definition user_draws (w : World) (r : row) (vs : list Z) : Prop :=
  exists u w1 w2,
    random w = Ok u w1 /\
    user_type r = fst (segment u) /\
    draw_months (snd (segment u)) 12 w1 = Ok vs w2.

(** [rows] are the rows of the successive turns of the user loop for
    [ids], started in [w], and [P] holds of every row and of the world its
    turn started in. *)
Fixpoint each_turn (self : SimulationEngine) (P : World -> row -> Prop)
    (w : World) (ids : list Z) (rows : list row) : Prop :=
  match ids, rows with
  | [], [] => True
  | uid :: ids', r :: rows' =>
      exists w',
        simulate_user self uid w = Ok r w' /\ P w r /\
        each_turn self P w' ids' rows'
  | _, _ => False
  end.

(** Supplied values of [random.random()] that stay at or below [c]. *)
Definition bounded (c : R) (draws : list R) : Prop :=
  Forall (fun u => (0 <= u <= c)%R) draws.

(** A world that still holds [m] values of [random.random()], and [m]
    values of numpy's generator when numpy is in use. *)
Definition fed (c : R) (m : nat) (w : World) : Prop :=
  bounded c (py_random w) /\
  (m <= List.length (py_random w))%nat /\
  (USE_NUMPY w = true -> (m <= List.length (np_random w))%nat).

(** [prog] finishes normally on every world fed with [m] values more than
    are needed afterwards, the values of [random.random()] bounded by [c]. *)
Definition total_within {A} (c : R) (m : nat) (prog : M A) : Prop :=
  forall w spare,
    fed c (m + spare) w ->
    exists a w', prog w = Ok a w' /\ fed c spare w'.

(** ** Worked worlds *)

(** Values of [random.random()] that make the fallback return 6 at rate 1:
    six factors keep the product above [exp(-1)], the seventh ends it. *)
Definition six_visits : list R :=
  [(9 / 10)%R; (9 / 10)%R; (9 / 10)%R; (9 / 10)%R; (9 / 10)%R; (9 / 10)%R;
   0%R].

Fixpoint year_of (month : list R) (n : nat) : list R :=
  match n with
  | O => []
  | S n' => month ++ year_of month n'
  end.

(** One healthy user with six visits in each month, without numpy. *)
Definition scenario_A_world (t : option (list row)) : World :=
  mkWorld false (0%R :: year_of six_visits 12) [] t.

(** A world without numpy whose fifty random values are all 0: every
    month then has no visit. *)
Definition quiet_world : World :=
  mkWorld false (repeat 0%R 50) [] None.

Definition scenario_A_row : row :=
  mkRow 1 "Healthy" 72 "Standard Plan" 600 600 2160 (-1560).

Definition scenario_A_costs : dict :=
  [("Lite Plan", 960); ("Standard Plan", 600);
   ("Chronic Care Plan", 1080); ("Unlimited Plan", 1800)].

(** ** The command line

    [run_simulation_command] of [app.py]: a fresh engine with the default
    path, [run] for the number of users of [--users], then [analyze]. *)
Definition run_simulation_command (users : Z) : M report :=
  let engine := __init__ "healthcare_simulation.db" in
  run engine users ;;; analyze.

(** ** Further reference notions *)

(** The product of the random values multiplied into [p] by the fallback. *)
Definition product (us : list R) : R := fold_right Rmult 1%R us.

(** Number of rows of [t] whose chosen plan is [k]. *)
Definition chosen_count (k : string) (t : list row) : nat :=
  List.length (filter (fun r => String.eqb (chosen_plan r) k) t).

(** Sum of the counts of the lines named [k]. *)
Definition line_count (k : string) (lines : list (string * nat)) : nat :=
  fold_right
    (fun kc acc => if String.eqb (fst kc) k then (snd kc + acc)%nat else acc)
    0%nat lines.

(** Sum of the counts of all the lines. *)
Definition total_count (lines : list (string * nat)) : nat :=
  fold_right (fun kc acc => (snd kc + acc)%nat) 0%nat lines.

(** Groups in strictly ascending order of their names. *)
Definition by_name (a b : string * nat) : Prop :=
  String.ltb (fst a) (fst b) = true.

(** Lines in the order of [ORDER BY COUNT( * ) DESC]. *)
Definition by_count_desc (a b : string * nat) : Prop := (snd b <= snd a)%nat.

(** Sum of a column of the table. *)
Definition column_sum (f : row -> Z) (t : list row) : Z :=
  fold_right Z.add 0 (map f t).

(** The plan a user takes who has [v] visits in every month of the year,
    under the catalog of [__init__]. *)
Definition plan_for_constant_visits (v : Z) : string :=
  if v <=? 4 then "Lite Plan"
  else if v <=? 10 then "Standard Plan"
  else if v <=? 24 then "Chronic Care Plan"
  else "Unlimited Plan".

(** A table of three rows: two users on the Standard plan, one without
    any visit on the Lite plan. *)
Definition sample_table : list row :=
  [ mkRow 1 "Healthy" 0 "Lite Plan" 240 240 0 240;
    mkRow 2 "Healthy" 72 "Standard Plan" 600 600 2160 (-1560);
    mkRow 3 "Average" 72 "Standard Plan" 600 600 2160 (-1560) ].

(** A world with numpy, for one user: numpy's generator returns 6 at its
    next twelve calls. *)
Definition numpy_world : World :=
  mkWorld true [0%R] (repeat (fun _ : R => 6) 12) None.

(** An engine whose catalog was emptied after construction. *)
Definition empty_catalog_engine : SimulationEngine :=
  mkEngine "healthcare_simulation.db" 30 [].

(** * Properties *)

(** ** The bill of one month *)

Lemma overage_nonneg (p : plan) (v : Z) : 0 <= overage p v.
Proof. unfold overage. destruct (included p); lia. Qed.

Lemma overage_monotone (p : plan) (v1 v2 : Z) :
  v1 <= v2 -> overage p v1 <= overage p v2.
Proof. unfold overage. destruct (included p); lia. Qed.

Lemma monthly_bill_monotone (p : plan) (v1 v2 : Z) :
  0 <= extra p -> v1 <= v2 -> monthly_bill p v1 <= monthly_bill p v2.
Proof.
  intros Hextra Hle. unfold monthly_bill.
  pose proof (overage_monotone p v1 v2 Hle).
  nia.
Qed.

Lemma monthly_bill_base (p : plan) (v : Z) :
  0 <= extra p -> price p <= monthly_bill p v.
Proof.
  intros Hextra. unfold monthly_bill.
  pose proof (overage_nonneg p v). nia.
Qed.

Lemma default_extra_nonneg (path : string) (p : plan) :
  In p (plans (__init__ path)) -> 0 <= extra p.
Proof.
  simpl. intros [<- | [<- | [<- | [<- | []]]]]; simpl; lia.
Qed.

(** C5: under every plan of the engine's catalog the bill of a month does
    not decrease when the number of visits grows. *)
Theorem monthly_bill_monotone_in_catalog (path : string) (p : plan) (v1 v2 : Z) :
  In p (plans (__init__ path)) ->
  0 <= v1 -> v1 <= v2 ->
  monthly_bill p v1 <= monthly_bill p v2.
Proof.
  intros Hin _ Hle.
  apply monthly_bill_monotone; [ exact (default_extra_nonneg path p Hin) | exact Hle ].
Qed.

Lemma monthly_bill_monotone_in_catalog_witness :
  monthly_bill (mkPlan "Lite Plan" 20 (Visits 2) 15) 3
  <= monthly_bill (mkPlan "Lite Plan" 20 (Visits 2) 15) 5.
Proof.
  apply (monthly_bill_monotone_in_catalog "healthcare_simulation.db");
    [ simpl; left; reflexivity | lia | lia ].
Defined.

(** C6: a plan whose [included] is infinite bills its monthly price for
    every number of visits, whatever its overage price. *)
Theorem unlimited_bill_is_price (p : plan) (v : Z) :
  included p = Inf -> monthly_bill p v = price p.
Proof.
  intros Hinf. unfold monthly_bill, overage. rewrite Hinf. lia.
Qed.

Lemma unlimited_bill_is_price_witness :
  monthly_bill (mkPlan "Unlimited Plan" 150 Inf 0) 100 = 150.
Proof.
  apply (unlimited_bill_is_price (mkPlan "Unlimited Plan" 150 Inf 0) 100).
  reflexivity.
Defined.

(** ** The visit generator *)

Lemma knuth_loop_stop (L p : R) (k : Z) (draws : list R) :
  (p <= L)%R -> knuth_loop L p k draws = Some (k - 1, draws).
Proof.
  intros Hle. destruct draws; simpl;
    destruct (Rgt_dec p L) as [Hgt | _]; try reflexivity; exfalso; lra.
Qed.

Lemma knuth_loop_step (L p u : R) (k : Z) (rest : list R) :
  (p > L)%R ->
  knuth_loop L p k (u :: rest) = knuth_loop L (p * u) (k + 1) rest.
Proof.
  intros Hgt. simpl. destruct (Rgt_dec p L) as [_ | Hn];
    [ reflexivity | exfalso; lra ].
Qed.

Lemma knuth_loop_starved (L p : R) (k : Z) :
  (p > L)%R -> knuth_loop L p k [] = None.
Proof.
  intros Hgt. simpl. destruct (Rgt_dec p L) as [_ | Hn];
    [ reflexivity | exfalso; lra ].
Qed.

(** The loop never returns less than [k - 1]. *)
Lemma knuth_loop_lower (L : R) (draws : list R) :
  forall (p : R) (k v : Z) (rest : list R),
    knuth_loop L p k draws = Some (v, rest) -> k - 1 <= v.
Proof.
  induction draws as [| u draws IH]; intros p k v rest H.
  - destruct (Rgt_dec p L) as [Hgt | Hle].
    + rewrite knuth_loop_starved in H by exact Hgt. discriminate.
    + rewrite knuth_loop_stop in H by lra. inversion H. lia.
  - destruct (Rgt_dec p L) as [Hgt | Hle].
    + rewrite knuth_loop_step in H by exact Hgt.
      apply IH in H. lia.
    + rewrite knuth_loop_stop in H by lra. inversion H. lia.
Qed.

(** With a positive rate the fallback returns no negative count. *)
Lemma poisson_fallback_nonneg (lam : R) (w w' : World) (v : Z) :
  (0 < lam)%R -> USE_NUMPY w = false ->
  _generate_poisson_visit lam w = Ok v w' -> 0 <= v.
Proof.
  intros Hlam Hnp H. unfold _generate_poisson_visit in H. rewrite Hnp in H.
  assert (HL : (1 > exp (- lam))%R).
  { rewrite <- exp_0. apply exp_increasing. lra. }
  destruct (py_random w) as [| u rest].
  - rewrite knuth_loop_starved in H by exact HL. discriminate.
  - rewrite knuth_loop_step in H by exact HL.
    destruct (knuth_loop (exp (- lam)) (1 * u) (0 + 1) rest) as [[v0 r0] |] eqn:E;
      [ | discriminate ].
    apply knuth_loop_lower in E. inversion H. subst. lia.
Qed.

(** C2: at rate 0 the fallback of [_generate_poisson_visit] leaves its
    loop at once, takes no random value and returns [-1]. *)
Theorem poisson_fallback_rate_zero
    (draws : list R) (np : list (R -> Z)) (t : option (list row)) :
  _generate_poisson_visit 0 (mkWorld false draws np t)
  = Ok (-1) (mkWorld false draws np t).
Proof.
  unfold _generate_poisson_visit. simpl.
  rewrite Ropp_0, exp_0.
  rewrite knuth_loop_stop by lra. reflexivity.
Qed.

(** ** The user segment *)

Lemma segment_healthy (u : R) :
  (u < 1 / 2)%R -> segment u = ("Healthy", 1%R).
Proof.
  intros H. unfold segment.
  destruct (Rlt_dec u (1 / 2)); [ reflexivity | exfalso; lra ].
Qed.

Lemma segment_average (u : R) :
  (1 / 2 <= u < 4 / 5)%R -> segment u = ("Average", 5%R).
Proof.
  intros H. unfold segment.
  destruct (Rlt_dec u (1 / 2)); [ exfalso; lra | ].
  destruct (Rlt_dec u (4 / 5)); [ reflexivity | exfalso; lra ].
Qed.

Lemma segment_chronic (u : R) :
  (4 / 5 <= u)%R -> segment u = ("Chronic", 12%R).
Proof.
  intros H. unfold segment.
  destruct (Rlt_dec u (1 / 2)); [ exfalso; lra | ].
  destruct (Rlt_dec u (4 / 5)); [ exfalso; lra | reflexivity ].
Qed.

Lemma segment_cases (u : R) :
  ((u < 1 / 2)%R /\ segment u = ("Healthy", 1%R)) \/
  ((1 / 2 <= u < 4 / 5)%R /\ segment u = ("Average", 5%R)) \/
  ((4 / 5 <= u)%R /\ segment u = ("Chronic", 12%R)).
Proof.
  destruct (Rlt_dec u (1 / 2)) as [H1 | H1].
  - left. split; [ exact H1 | apply segment_healthy; exact H1 ].
  - destruct (Rlt_dec u (4 / 5)) as [H2 | H2].
    + right; left. split; [ lra | apply segment_average; lra ].
    + right; right. split; [ lra | apply segment_chronic; lra ].
Qed.

(** The rate of every segment is positive and at most 12. *)
Lemma segment_rate (u : R) : (0 < snd (segment u) <= 12)%R.
Proof.
  destruct (segment_cases u) as [[_ E] | [[_ E] | [_ E]]];
    rewrite E; simpl; lra.
Qed.

(** C8: the two thresholds split the draws into three classes, Healthy
    below 0.50, Average from 0.50 and below 0.80, Chronic from 0.80 on;
    every draw gets one of the three types and exactly one. *)
Theorem segment_partition (u : R) :
  (fst (segment u) = "Healthy" <-> (u < 1 / 2)%R) /\
  (fst (segment u) = "Average" <-> (1 / 2 <= u < 4 / 5)%R) /\
  (fst (segment u) = "Chronic" <-> (4 / 5 <= u)%R) /\
  In (fst (segment u)) ["Healthy"; "Average"; "Chronic"].
Proof.
  destruct (segment_cases u) as [[Hu E] | [[Hu E] | [Hu E]]]; rewrite E; simpl;
    repeat split; intros; try discriminate; try lra; auto.
Qed.

(** ** The dict of annual costs *)

Section Dict.

Lemma dict_get_skip (l1 l2 : dict) (k : string) :
  ~ In k (map fst l1) -> dict_get (l1 ++ l2) k = dict_get l2 k.
Proof.
  induction l1 as [| [k' v'] l1 IH]; simpl; intros Hnot; [ reflexivity | ].
  destruct (String.eqb_spec k' k) as [-> | Hne].
  - exfalso. apply Hnot. left. reflexivity.
  - apply IH. intros Hin. apply Hnot. right. exact Hin.
Qed.

Lemma dict_set_skip (l1 l2 : dict) (k : string) (v : Z) :
  ~ In k (map fst l1) -> dict_set (l1 ++ l2) k v = l1 ++ dict_set l2 k v.
Proof.
  induction l1 as [| [k' v'] l1 IH]; simpl; intros Hnot; [ reflexivity | ].
  destruct (String.eqb_spec k' k) as [-> | Hne].
  - exfalso. apply Hnot. left. reflexivity.
  - f_equal. apply IH. intros Hin. apply Hnot. right. exact Hin.
Qed.

Lemma dict_set_fresh (d : dict) (k : string) (v : Z) :
  ~ In k (map fst d) -> dict_set d k v = d ++ [(k, v)].
Proof.
  intros Hnot. rewrite <- (app_nil_r d) at 1.
  rewrite dict_set_skip by exact Hnot. reflexivity.
Qed.

Lemma dict_set_keys (d : dict) (k : string) (v : Z) :
  In k (map fst d) -> map fst (dict_set d k v) = map fst d.
Proof.
  induction d as [| [k' v'] d IH]; simpl; intros Hin; [ contradiction | ].
  destruct (String.eqb_spec k' k) as [-> | Hne]; simpl; [ reflexivity | ].
  f_equal. apply IH. destruct Hin as [E | Hin]; [ contradiction | exact Hin ].
Qed.

Lemma dict_set_keys_incl (d : dict) (k k0 : string) (v : Z) :
  In k0 (map fst d) \/ k0 = k -> In k0 (map fst (dict_set d k v)).
Proof.
  induction d as [| [k' v'] d IH]; simpl; intros H.
  - destruct H as [[] | ->]. left. reflexivity.
  - destruct (String.eqb_spec k' k) as [-> | Hne]; simpl.
    + destruct H as [[E | Hin] | ->]; auto.
    + destruct H as [[E | Hin] | ->]; auto.
Qed.

Lemma dict_get_present (d : dict) (k : string) :
  In k (map fst d) -> exists v, dict_get d k = Some v.
Proof.
  induction d as [| [k' v'] d IH]; simpl; intros Hin; [ contradiction | ].
  destruct (String.eqb_spec k' k) as [-> | Hne]; [ eauto | ].
  apply IH. destruct Hin as [E | Hin]; [ contradiction | exact Hin ].
Qed.

Lemma dict_get_in (d : dict) (k : string) (v : Z) :
  NoDup (map fst d) -> In (k, v) d -> dict_get d k = Some v.
Proof.
  induction d as [| [k' v'] d IH]; simpl; intros Hnd Hin; [ contradiction | ].
  inversion Hnd as [| ? ? Hnot Hnd']; subst.
  destruct Hin as [E | Hin].
  - inversion E; subst. rewrite String.eqb_refl. reflexivity.
  - destruct (String.eqb_spec k' k) as [-> | Hne].
    + exfalso. apply Hnot. apply (in_map fst) in Hin. exact Hin.
    + apply IH; assumption.
Qed.

(** The keys of the fresh dict cover the names of the catalog. *)
Lemma init_costs_keys (ps : list plan) (p : plan) :
  In p ps -> In (name p) (map fst (init_costs ps)).
Proof.
  unfold init_costs.
  assert (G : forall todo d,
             In p todo \/ In (name p) (map fst d) ->
             In (name p)
                (map fst (fold_left (fun d p => dict_set d (name p) 0) todo d))).
  { induction todo as [| q todo IH]; simpl; intros d H.
    - destruct H as [[] | H]. exact H.
    - apply IH. destruct H as [[-> | Hin] | Hin].
      + right. apply dict_set_keys_incl. right. reflexivity.
      + left. exact Hin.
      + right. apply dict_set_keys_incl. left. exact Hin. }
  intros Hin. apply G. left. exact Hin.
Qed.

Lemma init_costs_nonempty (ps : list plan) :
  ps <> [] -> init_costs ps <> [].
Proof.
  destruct ps as [| p ps]; [ congruence | intros _ E ].
  pose proof (init_costs_keys (p :: ps) p (or_introl eq_refl)) as Hin.
  rewrite E in Hin. exact Hin.
Qed.

(** No read of the billing loop fails when the keys cover the names, and
    the loop leaves the keys and their order alone. *)
Lemma bill_plans_ok (v : Z) (ps : list plan) :
  forall costs,
    (forall p, In p ps -> In (name p) (map fst costs)) ->
    exists costs',
      bill_plans ps v costs = Some costs' /\ map fst costs' = map fst costs.
Proof.
  induction ps as [| q ps IH]; simpl; intros costs Hcov; [ eauto | ].
  destruct (dict_get_present costs (name q)) as [c Hc]; [ auto | ].
  rewrite Hc.
  assert (Hk : map fst (dict_set costs (name q) (c + monthly_bill q v))
               = map fst costs) by (apply dict_set_keys; auto).
  destruct (IH (dict_set costs (name q) (c + monthly_bill q v)))
    as [costs' [E K]].
  - intros p Hp. rewrite Hk. auto.
  - exists costs'. split; [ exact E | congruence ].
Qed.

Lemma acc_costs_keys (ps : list plan) (vs : list Z) :
  forall costs,
    (forall p, In p ps -> In (name p) (map fst costs)) ->
    map fst (acc_costs ps vs costs) = map fst costs.
Proof.
  induction vs as [| v vs IH]; simpl; intros costs Hcov; [ reflexivity | ].
  destruct (bill_plans_ok v ps costs Hcov) as [costs' [E K]].
  unfold acc_costs in *. simpl. rewrite E.
  rewrite IH; [ exact K | ]. intros p Hp. rewrite K. auto.
Qed.

(** With distinct names the dict is the catalog, entry for entry. *)
Lemma init_costs_nodup (ps : list plan) :
  NoDup (map name ps) ->
  init_costs ps = map (fun p => (name p, 0)) ps.
Proof.
  unfold init_costs.
  assert (G : forall todo d,
             NoDup (map name todo) ->
             (forall p, In p todo -> ~ In (name p) (map fst d)) ->
             fold_left (fun d p => dict_set d (name p) 0) todo d
             = d ++ map (fun p => (name p, 0)) todo).
  { induction todo as [| q todo IH]; simpl; intros d Hnd Hfresh.
    - rewrite app_nil_r. reflexivity.
    - inversion Hnd as [| ? ? Hq Hnd']; subst.
      rewrite dict_set_fresh by auto.
      rewrite IH; [ rewrite <- app_assoc; reflexivity | exact Hnd' | ].
      intros p Hp. rewrite map_app, in_app_iff. simpl.
      intros [Hin | [E | []]].
      + exact (Hfresh p (or_intror Hp) Hin).
      + apply Hq. rewrite E. apply in_map. exact Hp. }
  intros Hnd. apply (G ps []); [ exact Hnd | intros p _ [] ].
Qed.

Lemma bill_plans_nodup (v : Z) (f : plan -> Z) (ps : list plan) :
  NoDup (map name ps) ->
  bill_plans ps v (map (fun p => (name p, f p)) ps)
  = Some (map (fun p => (name p, f p + monthly_bill p v)) ps).
Proof.
  assert (G : forall todo d,
             NoDup (map name todo) ->
             (forall p, In p todo -> ~ In (name p) (map fst d)) ->
             bill_plans todo v (d ++ map (fun p => (name p, f p)) todo)
             = Some (d ++ map (fun p => (name p, f p + monthly_bill p v)) todo)).
  { induction todo as [| q todo IH]; simpl; intros d Hnd Hfresh;
      [ reflexivity | ].
    inversion Hnd as [| ? ? Hq Hnd']; subst.
    rewrite dict_get_skip by auto. simpl. rewrite String.eqb_refl.
    rewrite dict_set_skip by auto. simpl. rewrite String.eqb_refl.
    change (d ++ (name q, f q + monthly_bill q v)
              :: map (fun p => (name p, f p)) todo)
      with (d ++ [(name q, f q + monthly_bill q v)]
              ++ map (fun p => (name p, f p)) todo).
    rewrite app_assoc. rewrite IH.
    - rewrite <- app_assoc. reflexivity.
    - exact Hnd'.
    - intros p Hp. rewrite map_app, in_app_iff. simpl.
      intros [Hin | [E | []]].
      + exact (Hfresh p (or_intror Hp) Hin).
      + apply Hq. rewrite E. apply in_map. exact Hp. }
  intros Hnd. apply (G ps []); [ exact Hnd | intros p _ [] ].
Qed.

Lemma acc_costs_nodup (ps : list plan) (vs : list Z) :
  NoDup (map name ps) ->
  forall f,
    acc_costs ps vs (map (fun p => (name p, f p)) ps)
    = map (fun p => (name p, f p + annual_cost p vs)) ps.
Proof.
  intros Hnd. induction vs as [| v vs IH]; intros f.
  - simpl. apply map_ext. intros p. f_equal. lia.
  - unfold acc_costs in *. simpl.
    rewrite bill_plans_nodup by exact Hnd.
    rewrite IH. apply map_ext. intros p. f_equal. lia.
Qed.

End Dict.

(** ** The rational choice *)

(** [min_from] returns the first entry of least value: everything before
    it is strictly dearer, nothing after it is cheaper. *)
Lemma min_from_first (d : dict) :
  forall (pre mid : dict) (best : string * Z),
    (forall x, In x pre -> snd best < snd x) ->
    (forall x, In x mid -> snd best <= snd x) ->
    exists l1 l2,
      pre ++ best :: mid ++ d = l1 ++ min_from best d :: l2 /\
      (forall x, In x l1 -> snd (min_from best d) < snd x) /\
      (forall x, In x l2 -> snd (min_from best d) <= snd x).
Proof.
  induction d as [| kv d IH]; intros pre mid best Hpre Hmid; simpl.
  - exists pre, mid. rewrite app_nil_r. auto.
  - destruct (Z.ltb_spec (snd kv) (snd best)) as [Hlt | Hge].
    + destruct (IH (pre ++ best :: mid) [] kv) as [l1 [l2 [E [H1 H2]]]].
      * intros x Hx. apply in_app_iff in Hx.
        destruct Hx as [Hx | [<- | Hx]];
          [ specialize (Hpre x Hx) | | specialize (Hmid x Hx) ]; lia.
      * intros x [].
      * exists l1, l2. split; [ | auto ].
        rewrite <- E. simpl. rewrite <- app_assoc. reflexivity.
    + destruct (IH pre (mid ++ [kv]) best) as [l1 [l2 [E [H1 H2]]]].
      * exact Hpre.
      * intros x Hx. apply in_app_iff in Hx.
        destruct Hx as [Hx | [<- | []]]; [ auto | lia ].
      * exists l1, l2. split; [ | auto ].
        rewrite <- E. rewrite <- app_assoc. reflexivity.
Qed.

Lemma min_key_first (d : dict) (k : string) :
  min_key d = Some k ->
  exists l1 v l2,
    d = l1 ++ (k, v) :: l2 /\
    (forall x, In x l1 -> v < snd x) /\
    (forall x, In x l2 -> v <= snd x).
Proof.
  destruct d as [| kv d]; simpl; intros H; [ discriminate | ].
  inversion H; subst; clear H.
  destruct (min_from_first d [] [] kv) as [l1 [l2 [E [H1 H2]]]];
    [ intros x [] | intros x [] | ].
  simpl in E. exists l1, (snd (min_from kv d)), l2.
  rewrite <- surjective_pairing. auto.
Qed.

Lemma min_key_some (d : dict) : d <> [] -> exists k, min_key d = Some k.
Proof. destruct d; [ congruence | simpl; eauto ]. Qed.

(** On the dict of a catalog with distinct names the chosen key is the
    name of the first plan of least value, and its entry is that value. *)
Lemma min_key_catalog (g : plan -> Z) (ps : list plan) (k : string) :
  NoDup (map name ps) ->
  min_key (map (fun p => (name p, g p)) ps) = Some k ->
  exists p,
    first_min g ps p /\ k = name p /\
    dict_get (map (fun p => (name p, g p)) ps) k = Some (g p).
Proof.
  intros Hnd H.
  destruct (min_key_first _ _ H) as [l1 [v [l2 [E [H1 H2]]]]].
  apply map_eq_app in E. destruct E as [before [rest [Eps [E1 E2]]]].
  apply map_eq_cons in E2. destruct E2 as [p [after [Erest [Ep E2]]]].
  inversion Ep; subst. clear Ep.
  exists p. split; [ | split; [ reflexivity | ] ].
  - exists before, after. split; [ reflexivity | split ].
    + intros q Hq.
      apply (H1 (name q, g q)), (in_map (fun p => (name p, g p))), Hq.
    + intros q Hq.
      apply (H2 (name q, g q)), (in_map (fun p => (name p, g p))), Hq.
  - apply dict_get_in.
    + rewrite map_map. simpl. exact Hnd.
    + apply (in_map (fun p => (name p, g p))).
      apply in_app_iff. right. left. reflexivity.
Qed.

(** ** One user *)

Section User.

Variable self : SimulationEngine.

Lemma draw_months_length (lam : R) (n : nat) :
  forall w vs w', draw_months lam n w = Ok vs w' -> List.length vs = n.
Proof.
  induction n as [| n IH]; simpl; intros w vs w' H.
  - inversion H. reflexivity.
  - unfold bind in H.
    destruct (_generate_poisson_visit lam w) as [v w1 | e |]; try discriminate.
    destruct (draw_months lam n w1) as [vs1 w2 | e |] eqn:E; try discriminate.
    inversion H; subst. simpl. f_equal. exact (IH _ _ _ E).
Qed.

(** The twelve-month loop is the drawing of the months followed by the
    billing of all of them: interleaving the two changes nothing. *)
Lemma months_draws (lam : R) (n : nat) :
  forall costs total w,
    (forall p, In p (plans self) -> In (name p) (map fst costs)) ->
    months self n lam costs total w
    = match draw_months lam n w with
      | Ok vs w' =>
          Ok (acc_costs (plans self) vs costs, total + sum_visits vs) w'
      | Raise e => Raise e
      | Starved => Starved
      end.
Proof.
  induction n as [| n IH]; intros costs total w Hcov; simpl.
  - unfold ret. simpl. f_equal. f_equal. lia.
  - unfold bind.
    destruct (_generate_poisson_visit lam w) as [v w1 | e |]; try reflexivity.
    destruct (bill_plans_ok v (plans self) costs Hcov) as [costs' [E K]].
    rewrite E. rewrite IH by (intros p Hp; rewrite K; auto).
    destruct (draw_months lam n w1) as [vs w2 | e |]; try reflexivity.
    unfold ret, acc_costs. simpl. rewrite E. f_equal. f_equal. lia.
Qed.

(** What a finished turn of the user loop did. *)
Lemma simulate_user_ok (uid : Z) (w w' : World) (r : row) :
  simulate_user self uid w = Ok r w' ->
  exists u w1 vs best cost,
    random w = Ok u w1 /\
    draw_months (snd (segment u)) 12 w1 = Ok vs w' /\
    min_key (acc_costs (plans self) vs (init_costs (plans self))) = Some best /\
    dict_get (acc_costs (plans self) vs (init_costs (plans self))) best
      = Some cost /\
    r = mkRow uid (fst (segment u)) (sum_visits vs) best cost cost
              (sum_visits vs * cost_per_visit self)
              (cost - sum_visits vs * cost_per_visit self).
Proof.
  unfold simulate_user, bind. intros H.
  destruct (random w) as [u w1 | e |]; try discriminate.
  destruct (segment u) as [utype lam] eqn:Eseg.
  rewrite months_draws in H by apply init_costs_keys.
  destruct (draw_months lam 12 w1) as [vs w2 | e |] eqn:Edraw; try discriminate.
  destruct (min_key (acc_costs (plans self) vs (init_costs (plans self))))
    as [best |] eqn:Emin; [ | discriminate ].
  destruct (dict_get (acc_costs (plans self) vs (init_costs (plans self))) best)
    as [cost |] eqn:Eget; [ | discriminate ].
  unfold ret in H. rewrite Z.add_0_l in H. inversion H; subst.
  exists u, w1, vs, best, cost. rewrite Eseg. cbn [fst snd].
  repeat split; auto.
Qed.

(** A turn whose draws succeed finishes, unless the catalog is empty. *)
Lemma simulate_user_total (uid : Z) (w w1 w2 : World) (u : R) (vs : list Z) :
  plans self <> [] ->
  random w = Ok u w1 ->
  draw_months (snd (segment u)) 12 w1 = Ok vs w2 ->
  exists r, simulate_user self uid w = Ok r w2.
Proof.
  intros Hne Hu Hvs. unfold simulate_user, bind. rewrite Hu.
  destruct (segment u) as [utype lam] eqn:Eseg. cbn [snd] in Hvs.
  rewrite months_draws by apply init_costs_keys. rewrite Hvs.
  set (d := acc_costs (plans self) vs (init_costs (plans self))).
  assert (Hkeys : map fst d = map fst (init_costs (plans self)))
    by (apply acc_costs_keys, init_costs_keys).
  assert (Hd : d <> []).
  { intros E. rewrite E in Hkeys. simpl in Hkeys.
    apply (init_costs_nonempty (plans self) Hne).
    destruct (init_costs (plans self)); [ reflexivity | discriminate ]. }
  destruct (min_key_some d Hd) as [best Hbest]. rewrite Hbest.
  destruct (min_key_first d best Hbest) as [l1 [v [l2 [E _]]]].
  destruct (dict_get_present d best) as [cost Hcost].
  { rewrite E, map_app, in_app_iff. right. left. reflexivity. }
  rewrite Hcost. unfold ret. eauto.
Qed.

(** The row of a finished turn binds to the twelve draws of its user, obeys
    the economic identities and carries the given id. *)
Lemma simulate_user_row (uid : Z) (w w' : World) (r : row) :
  simulate_user self uid w = Ok r w' ->
  user_id r = uid /\
  exists vs,
    user_draws w r vs /\ List.length vs = 12%nat /\ row_identities self vs r.
Proof.
  intros H. destruct (simulate_user_ok uid w w' r H)
    as [u [w1 [vs [best [cost [Hu [Hvs [_ [_ ->]]]]]]]]].
  split; [ reflexivity | ].
  exists vs. split; [ | split ].
  - exists u, w1, w'. cbn [user_type]. auto.
  - exact (draw_months_length _ _ _ _ _ Hvs).
  - unfold row_identities.
    cbn [annual_visits company_revenue user_annual_cost company_cost
         company_profit].
    auto.
Qed.

(** With distinct plan names the row holds the first plan of least annual
    cost, at that cost. *)
Lemma simulate_user_choice (uid : Z) (w w' : World) (r : row) :
  NoDup (map name (plans self)) ->
  simulate_user self uid w = Ok r w' ->
  exists vs p,
    user_draws w r vs /\ List.length vs = 12%nat /\
    first_min (fun q => annual_cost q vs) (plans self) p /\
    chosen_plan r = name p /\
    user_annual_cost r = annual_cost p vs.
Proof.
  intros Hnd H. destruct (simulate_user_ok uid w w' r H)
    as [u [w1 [vs [best [cost [Hu [Hvs [Hmin [Hget ->]]]]]]]]].
  rewrite init_costs_nodup in Hmin, Hget by exact Hnd.
  rewrite (acc_costs_nodup _ vs Hnd (fun _ => 0)) in Hmin, Hget.
  destruct (min_key_catalog (fun q => 0 + annual_cost q vs) _ _ Hnd Hmin)
    as [p [[before [after [E [Hb Ha]]]] [-> Hp]]].
  rewrite Hp in Hget. inversion Hget; subst cost.
  exists vs, p. cbn [chosen_plan user_annual_cost].
  split; [ | split; [ | split; [ | split ] ] ].
  - exists u, w1, w'. cbn [user_type]. auto.
  - exact (draw_months_length _ _ _ _ _ Hvs).
  - exists before, after. split; [ exact E | split ]; intros q Hq.
    + specialize (Hb q Hq). cbn beta in Hb. lia.
    + specialize (Ha q Hq). cbn beta in Ha. lia.
  - reflexivity.
  - lia.
Qed.

End User.

(** ** The user loop and [run] *)

Section Run.

Variable self : SimulationEngine.

Lemma random_frame (w w' : World) (u : R) :
  random w = Ok u w' -> table w' = table w.
Proof.
  unfold random. destruct (py_random w); intros H; inversion H. reflexivity.
Qed.

Lemma poisson_frame (lam : R) (w w' : World) (v : Z) :
  _generate_poisson_visit lam w = Ok v w' -> table w' = table w.
Proof.
  unfold _generate_poisson_visit. destruct (USE_NUMPY w).
  - destruct (np_random w); intros H; inversion H. reflexivity.
  - destruct (knuth_loop (exp (- lam)) 1 0 (py_random w)) as [[v0 rest] |];
      intros H; inversion H. reflexivity.
Qed.

Lemma draw_months_frame (lam : R) (n : nat) :
  forall w vs w', draw_months lam n w = Ok vs w' -> table w' = table w.
Proof.
  induction n as [| n IH]; simpl; intros w vs w' H.
  - inversion H. reflexivity.
  - unfold bind in H.
    destruct (_generate_poisson_visit lam w) as [v w1 | e |] eqn:Ev;
      try discriminate.
    destruct (draw_months lam n w1) as [vs1 w2 | e |] eqn:E; try discriminate.
    inversion H; subst.
    rewrite (IH _ _ _ E). exact (poisson_frame _ _ _ _ Ev).
Qed.

Lemma simulate_user_frame (uid : Z) (w w' : World) (r : row) :
  simulate_user self uid w = Ok r w' -> table w' = table w.
Proof.
  intros H. destruct (simulate_user_ok self uid w w' r H)
    as [u [w1 [vs [_ [_ [Hu [Hvs _]]]]]]].
  rewrite (draw_months_frame _ _ _ _ _ Hvs). exact (random_frame _ _ _ Hu).
Qed.

Lemma each_turn_weaken (P Q : World -> row -> Prop) :
  (forall uid wa wb r,
      simulate_user self uid wa = Ok r wb -> P wa r -> Q wa r) ->
  forall ids w rows,
    each_turn self P w ids rows -> each_turn self Q w ids rows.
Proof.
  intros HPQ. induction ids as [| uid ids IH]; intros w [| r rows]; simpl;
    try tauto.
  intros [w' [Hr [HP Hrest]]]. exists w'. eauto.
Qed.

Lemma each_turn_ids (P : World -> row -> Prop) :
  forall ids w rows,
    each_turn self P w ids rows -> map user_id rows = ids.
Proof.
  induction ids as [| uid ids IH]; intros w [| r rows]; simpl;
    try tauto.
  intros [w' [Hr [_ Hrest]]].
  destruct (simulate_user_row self uid w w' r Hr) as [-> _].
  f_equal. exact (IH _ _ Hrest).
Qed.

Lemma each_turn_in (P : World -> row -> Prop) :
  forall ids w rows r,
    each_turn self P w ids rows -> In r rows -> exists wa, P wa r.
Proof.
  induction ids as [| uid ids IH]; intros w [| r0 rows] r; simpl;
    try tauto.
  intros [w' [Hr [HP Hrest]]] [<- | Hin]; [ eauto | ].
  exact (IH _ _ _ Hrest Hin).
Qed.

Lemma users_loop_turns :
  forall ids acc w rows w',
    users_loop self ids acc w = Ok rows w' ->
    exists new,
      rows = acc ++ new /\
      each_turn self (fun _ _ => True) w ids new /\
      table w' = table w.
Proof.
  induction ids as [| uid ids IH]; simpl; intros acc w rows w' H.
  - inversion H; subst. exists []. rewrite app_nil_r. simpl. auto.
  - unfold bind in H.
    destruct (simulate_user self uid w) as [r w1 | e |] eqn:Er;
      try discriminate.
    destruct (IH _ _ _ _ H) as [new [-> [Hturns Ht]]].
    exists (r :: new). rewrite <- app_assoc. simpl.
    split; [ reflexivity | split ].
    + exists w1. auto.
    + rewrite Ht. exact (simulate_user_frame _ _ _ _ Er).
Qed.

Lemma distinct_NoDup (ids : list Z) : NoDup ids -> distinct ids = true.
Proof.
  induction 1 as [| i ids Hnot Hnd IH]; simpl; [ reflexivity | ].
  rewrite IH, andb_true_r. apply negb_true_iff.
  destruct (existsb (Z.eqb i) ids) eqn:E; [ | reflexivity ].
  apply existsb_exists in E. destruct E as [j [Hj Hij]].
  apply Z.eqb_eq in Hij. subst. contradiction.
Qed.

Lemma user_ids_distinct (n : Z) : distinct (user_ids n) = true.
Proof.
  apply distinct_NoDup. unfold user_ids.
  generalize (seq_NoDup (Z.to_nat n) 1).
  induction 1 as [| i l Hnot Hnd IH]; simpl; constructor; [ | exact IH ].
  intros Hin. apply in_map_iff in Hin. destruct Hin as [j [Hj Hin]].
  apply Nat2Z.inj in Hj. subst. contradiction.
Qed.

Lemma user_ids_length (n : Z) :
  0 <= n -> Z.of_nat (List.length (user_ids n)) = n.
Proof.
  intros Hn. unfold user_ids. rewrite length_map, length_seq. lia.
Qed.

(** A finished [run] leaves in the table the rows of the successive turns,
    started from the emptied table. *)
Lemma run_ok (n : Z) (w w' : World) :
  run self n w = Ok tt w' ->
  exists rows,
    table w' = Some rows /\
    each_turn self (fun _ _ => True) (with_table w (Some [])) (user_ids n) rows.
Proof.
  unfold run, bind, setup_db. intros H.
  destruct (users_loop self (user_ids n) [] (with_table w (Some [])))
    as [rows w1 | e |] eqn:E; try discriminate.
  destruct (users_loop_turns _ _ _ _ _ E) as [new [-> [Hturns Ht]]].
  unfold insert_rows in H. rewrite Ht in H. simpl in H.
  destruct (distinct (map user_id new)); [ | discriminate ].
  inversion H; subst. exists new. simpl. auto.
Qed.

(** The loop and [run] finish as soon as every turn does. *)
Lemma run_finishes (n : Z) (w w1 : World) (rows : list row) :
  users_loop self (user_ids n) [] (with_table w (Some [])) = Ok rows w1 ->
  run self n w = Ok tt (with_table w1 (Some rows)).
Proof.
  intros E. unfold run, bind, setup_db. rewrite E.
  destruct (users_loop_turns _ _ _ _ _ E) as [new [Hrows [Hturns Ht]]].
  simpl in Hrows. subst new.
  unfold insert_rows. rewrite Ht. simpl.
  rewrite (each_turn_ids _ _ _ _ Hturns), user_ids_distinct. reflexivity.
Qed.

End Run.

(** ** Enough random values make the engine finish *)

Section Supply.

(** The supplied values of [random.random()] stay at or below [c], which
    is below 1, and [K] factors of [c] fall below [exp(-12)], the smallest
    threshold the engine uses. *)
Variable c : R.
Variable K : nat.
Hypothesis c_range : (0 <= c < 1)%R.
Hypothesis K_enough : (c ^ K < exp (- 12))%R.

Lemma knuth_loop_total (L : R) :
  forall (m : nat) (draws : list R) (p : R) (k : Z),
    (0 <= p)%R -> (p * c ^ m < L)%R ->
    bounded c draws -> (m <= List.length draws)%nat ->
    exists v used rest,
      knuth_loop L p k draws = Some (v, rest) /\
      draws = used ++ rest /\ (List.length used <= m)%nat.
Proof.
  induction m as [| m IH]; intros draws p k Hp Hlt Hb Hlen.
  - simpl in Hlt. exists (k - 1), [], draws.
    rewrite knuth_loop_stop by lra. simpl. auto.
  - destruct (Rgt_dec p L) as [Hgt | Hle].
    + destruct draws as [| u rest]; [ simpl in Hlen; lia | ].
      inversion Hb as [| ? ? Hu Hb']; subst.
      rewrite knuth_loop_step by exact Hgt.
      destruct (IH rest (p * u)%R (k + 1)) as [v [used [rest' [E [Hsplit Hused]]]]].
      * apply Rmult_le_pos; lra.
      * apply Rle_lt_trans with (p * c ^ S m)%R; [ | exact Hlt ].
        simpl. rewrite Rmult_assoc.
        apply Rmult_le_compat_l; [ exact Hp | ].
        apply Rmult_le_compat_r; [ apply pow_le; lra | lra ].
      * exact Hb'.
      * simpl in Hlen. lia.
      * exists v, (u :: used), rest'. simpl.
        split; [ exact E | split; [ f_equal; exact Hsplit | lia ] ].
    + exists (k - 1), [], (draws).
      rewrite knuth_loop_stop by lra. simpl. split; [ | split ]; auto; lia.
Qed.

Lemma fed_with_table (m : nat) (w : World) (t : option (list row)) :
  fed c m (with_table w t) <-> fed c m w.
Proof. unfold fed, with_table. simpl. tauto. Qed.

Lemma random_total : total_within c 1 random.
Proof.
  intros w spare [Hb [Hpy Hnp]]. unfold random.
  destruct (py_random w) as [| u rest] eqn:E; [ simpl in Hpy; lia | ].
  exists u, (mkWorld (USE_NUMPY w) rest (np_random w) (table w)).
  split; [ reflexivity | ].
  inversion Hb; subst. unfold fed. simpl in *.
  split; [ assumption | split; [ lia | ] ].
  intros Hflag. specialize (Hnp Hflag). lia.
Qed.

Lemma poisson_total (lam : R) :
  (lam <= 12)%R -> total_within c (S K) (_generate_poisson_visit lam).
Proof.
  intros Hlam w spare [Hb [Hpy Hnp]]. unfold _generate_poisson_visit.
  destruct (USE_NUMPY w).
  - specialize (Hnp eq_refl).
    destruct (np_random w) as [| f rest] eqn:E; [ simpl in Hnp; lia | ].
    eexists _, _. split; [ reflexivity | ].
    unfold fed. simpl in *. split; [ assumption | split; [ lia | ] ].
    intros _. lia.
  - assert (HL : (1 * c ^ K < exp (- lam))%R).
    { apply Rlt_le_trans with (exp (- 12)); [ lra | ].
      destruct (Req_dec lam 12) as [E | Hne].
      - apply Req_le. f_equal. lra.
      - left. apply exp_increasing. lra. }
    destruct (knuth_loop_total (exp (- lam)) K (py_random w) 1 0)
      as [v [used [rest [E [Hsplit Hused]]]]]; try lra; try lia; auto.
    rewrite E. eexists _, _. split; [ reflexivity | ].
    unfold fed. simpl.
    rewrite Hsplit in Hb, Hpy. apply Forall_app in Hb.
    rewrite length_app in Hpy.
    split; [ tauto | split; [ lia | discriminate ] ].
Qed.

Lemma total_within_bind {A B} (m1 m2 : nat) (prog : M A) (f : A -> M B) :
  total_within c m1 prog ->
  (forall a, total_within c m2 (f a)) ->
  total_within c (m1 + m2) (bind prog f).
Proof.
  intros H1 H2 w spare Hfed.
  destruct (H1 w (m2 + spare)%nat) as [a [w1 [E1 Hfed1]]].
  { replace (m1 + (m2 + spare))%nat with (m1 + m2 + spare)%nat by lia.
    exact Hfed. }
  destruct (H2 a w1 spare Hfed1) as [b [w2 [E2 Hfed2]]].
  exists b, w2. unfold bind. rewrite E1. auto.
Qed.

Lemma total_within_ret {A} (a : A) : total_within c 0 (ret a).
Proof. intros w spare Hfed. exists a, w. auto. Qed.

Lemma draw_months_total (lam : R) (n : nat) :
  (lam <= 12)%R -> total_within c (n * S K) (draw_months lam n).
Proof.
  intros Hlam. induction n as [| n IH].
  - apply total_within_ret.
  - change (S n * S K)%nat with (S K + n * S K)%nat.
    cbn [draw_months].
    apply total_within_bind; [ apply poisson_total; exact Hlam | intros v ].
    replace (n * S K)%nat with (n * S K + 0)%nat by lia.
    apply total_within_bind; [ exact IH | intros vs; apply total_within_ret ].
Qed.

Variable self : SimulationEngine.
Hypothesis catalog_nonempty : plans self <> [].

Lemma simulate_user_total_within (uid : Z) :
  total_within c (1 + 12 * S K) (simulate_user self uid).
Proof.
  intros w spare Hfed.
  destruct (random_total w (12 * S K + spare)%nat) as [u [w1 [Eu Hfed1]]].
  { replace (1 + (12 * S K + spare))%nat with (1 + 12 * S K + spare)%nat by lia.
    exact Hfed. }
  destruct (draw_months_total (snd (segment u)) 12 (proj2 (segment_rate u))
              w1 spare Hfed1) as [vs [w2 [Evs Hfed2]]].
  destruct (simulate_user_total self uid w w1 w2 u vs catalog_nonempty Eu Evs)
    as [r Er].
  exists r, w2. auto.
Qed.

Lemma users_loop_total (ids : list Z) :
  forall acc,
    total_within c (List.length ids * (1 + 12 * S K)) (users_loop self ids acc).
Proof.
  induction ids as [| uid ids IH]; intros acc.
  - apply total_within_ret.
  - change (List.length (uid :: ids) * (1 + 12 * S K))%nat
      with ((1 + 12 * S K) + List.length ids * (1 + 12 * S K))%nat.
    cbn [users_loop].
    apply total_within_bind; [ apply simulate_user_total_within | ].
    intros r. apply IH.
Qed.

(** [run] finishes on every world that holds enough random values. *)
Lemma run_total (n : Z) (w : World) :
  fed c (Z.to_nat n * (1 + 12 * S K)) w ->
  exists w', run self n w = Ok tt w'.
Proof.
  intros Hfed.
  destruct (users_loop_total (user_ids n) [] (with_table w (Some [])) 0%nat)
    as [rows [w1 [E _]]].
  { apply fed_with_table. unfold user_ids. rewrite length_map, length_seq.
    rewrite Nat.add_0_r. exact Hfed. }
  exists (with_table w1 (Some rows)). apply run_finishes. exact E.
Qed.

End Supply.

(** Whatever bound below 1 the random values obey, some number of factors
    falls below the smallest threshold. *)
Lemma enough_factors (c : R) :
  (0 <= c < 1)%R -> exists K, (c ^ K < exp (- 12))%R.
Proof.
  intros Hc.
  destruct (pow_lt_1_zero c) with (y := exp (- 12)) as [N HN].
  - rewrite Rabs_right; lra.
  - apply exp_pos.
  - exists N. specialize (HN N (le_n N)).
    rewrite Rabs_right in HN; [ exact HN | ].
    apply Rle_ge, pow_le. lra.
Qed.

(** ** Scenario A: six visits in every month *)

Lemma exp_minus_1_bounds : (0 < exp (Ropp 1) < 1 / 2)%R.
Proof.
  split; [ apply exp_pos | ].
  rewrite exp_Ropp.
  assert (H2 : (2 < exp 1)%R).
  { pose proof (exp_ineq1 1) as H. lra. }
  replace (1 / 2)%R with (/ 2)%R by lra.
  apply Rinv_0_lt_contravar; lra.
Qed.

Lemma poisson_six (rest : list R) (np : list (R -> Z)) (t : option (list row)) :
  _generate_poisson_visit 1 (mkWorld false (six_visits ++ rest) np t)
  = Ok 6 (mkWorld false rest np t).
Proof.
  pose proof exp_minus_1_bounds as Hexp.
  unfold _generate_poisson_visit, six_visits.
  cbn [USE_NUMPY py_random np_random table app].
  do 7 (rewrite knuth_loop_step by lra).
  rewrite knuth_loop_stop by lra.
  reflexivity.
Qed.

Lemma draw_months_six (n : nat) (rest : list R) (np : list (R -> Z))
    (t : option (list row)) :
  draw_months 1 n (mkWorld false (year_of six_visits n ++ rest) np t)
  = Ok (repeat 6 n) (mkWorld false rest np t).
Proof.
  induction n as [| n IH]; cbn [draw_months year_of repeat].
  - reflexivity.
  - rewrite <- app_assoc. unfold bind at 1. rewrite poisson_six.
    unfold bind at 1. rewrite IH. reflexivity.
Qed.

Lemma scenario_A_draws (t : option (list row)) :
  random (scenario_A_world t)
  = Ok 0%R (mkWorld false (year_of six_visits 12) [] t) /\
  draw_months (snd (segment 0)) 12 (mkWorld false (year_of six_visits 12) [] t)
  = Ok (repeat 6 12) (mkWorld false [] [] t).
Proof.
  split; [ reflexivity | ].
  rewrite segment_healthy by lra. cbn [snd].
  rewrite <- (app_nil_r (year_of six_visits 12)).
  apply draw_months_six.
Qed.

(** The months loop and the whole turn of a user of [__init__]'s engine
    whose twelve draws are all 6. *)
Lemma scenario_A_user (path : string) (uid : Z) (w w1 w2 : World) (u : R) :
  random w = Ok u w1 ->
  draw_months (snd (segment u)) 12 w1 = Ok (repeat 6 12) w2 ->
  months (__init__ path) 12 (snd (segment u))
         (init_costs (plans (__init__ path))) 0 w1
  = Ok (scenario_A_costs, 72) w2 /\
  simulate_user (__init__ path) uid w
  = Ok (mkRow uid (fst (segment u)) 72 "Standard Plan" 600 600 2160 (-1560)) w2.
Proof.
  intros Hu Hvs.
  assert (Hmonths :
            months (__init__ path) 12 (snd (segment u))
                   (init_costs (plans (__init__ path))) 0 w1
            = Ok (scenario_A_costs, 72) w2).
  { rewrite months_draws by apply init_costs_keys. rewrite Hvs. reflexivity. }
  split; [ exact Hmonths | ].
  unfold simulate_user, bind. rewrite Hu.
  destruct (segment u) as [utype lam]. cbn [fst snd] in *.
  rewrite Hmonths. reflexivity.
Qed.

(** C4: with the catalog and the cost per visit of [__init__], a user whose
    twelve draws are all 6 accumulates 960, 600, 1080 and 1800 under the
    four plans, in catalog order, chooses the Standard plan at 600, and
    costs the company 2160, a profit of -1560. *)
Theorem six_visits_every_month
    (path : string) (uid : Z) (w w1 w2 : World) (u : R) :
  random w = Ok u w1 ->
  draw_months (snd (segment u)) 12 w1 = Ok (repeat 6 12) w2 ->
  cost_per_visit (__init__ path) = 30 /\
  months (__init__ path) 12 (snd (segment u))
         (init_costs (plans (__init__ path))) 0 w1
  = Ok ([("Lite Plan", 960); ("Standard Plan", 600);
         ("Chronic Care Plan", 1080); ("Unlimited Plan", 1800)], 72) w2 /\
  exists r,
    simulate_user (__init__ path) uid w = Ok r w2 /\
    annual_visits r = 72 /\
    chosen_plan r = "Standard Plan" /\
    user_annual_cost r = 600 /\
    company_revenue r = 600 /\
    company_cost r = 2160 /\
    company_profit r = -1560.
Proof.
  intros Hu Hvs.
  destruct (scenario_A_user path uid w w1 w2 u Hu Hvs) as [Hmonths Hrow].
  split; [ reflexivity | split; [ exact Hmonths | ] ].
  eexists. split; [ exact Hrow | ]. repeat split.
Qed.

Lemma six_visits_every_month_witness :
  exists r,
    simulate_user default_engine 1 (scenario_A_world None)
    = Ok r (mkWorld false [] [] None) /\
    chosen_plan r = "Standard Plan" /\
    user_annual_cost r = 600 /\
    company_cost r = 2160 /\
    company_profit r = -1560.
Proof.
  destruct (scenario_A_draws None) as [Hu Hvs].
  destruct (six_visits_every_month "healthcare_simulation.db" 1 _ _ _ _ Hu Hvs)
    as [_ [_ [r [Hr [_ [Hplan [Hcost [_ [Hcc Hprofit]]]]]]]]].
  exists r. auto.
Defined.

(** The whole [run] of scenario A, for one user. *)
Lemma scenario_A_run (t : option (list row)) :
  run default_engine 1 (scenario_A_world t)
  = Ok tt (mkWorld false [] [] (Some [scenario_A_row])).
Proof.
  apply (run_finishes default_engine 1 (scenario_A_world t)
           (mkWorld false [] [] (Some []))).
  change (user_ids 1) with [1]. cbn [users_loop]. unfold bind.
  destruct (scenario_A_draws (Some [])) as [Hu Hvs].
  pose proof (scenario_A_user "healthcare_simulation.db" 1 _ _ _ _ Hu Hvs)
    as [_ H].
  rewrite segment_healthy in H by lra.
  change (with_table (scenario_A_world t) (Some []))
    with (scenario_A_world (Some [])).
  unfold default_engine. rewrite H. reflexivity.
Qed.

(** ** Properties of the rows of a run *)

Lemma annual_cost_lower (p : plan) (vs : list Z) :
  0 <= extra p ->
  Z.of_nat (List.length vs) * price p <= annual_cost p vs.
Proof.
  intros Hextra. induction vs as [| v vs IH].
  - simpl. lia.
  - cbn [annual_cost fold_right List.length].
    change (fold_right (fun v acc => monthly_bill p v + acc) 0 vs)
      with (annual_cost p vs).
    pose proof (monthly_bill_base p v Hextra). lia.
Qed.

Lemma first_min_in (g : plan -> Z) (ps : list plan) (p : plan) :
  first_min g ps p -> In p ps.
Proof.
  intros [before [after [-> _]]]. apply in_app_iff. right. left. reflexivity.
Qed.

Lemma first_min_least (g : plan -> Z) (ps : list plan) (p q : plan) :
  first_min g ps p -> In q ps -> g p <= g q.
Proof.
  intros [before [after [-> [Hb Ha]]]] Hq.
  apply in_app_iff in Hq. destruct Hq as [Hq | [<- | Hq]];
    [ specialize (Hb q Hq) | | specialize (Ha q Hq) ]; lia.
Qed.

(** C1: in every row of a finished run over a catalog of distinct names,
    the chosen plan is the first plan of the catalog whose annual cost,
    recomputed from the twelve draws of the row's user, is the least, and
    [user_annual_cost] is that least cost. *)
Theorem chosen_plan_is_first_argmin
    (self : SimulationEngine) (n : Z) (w w' : World) (rows : list row) :
  NoDup (map name (plans self)) ->
  run self n w = Ok tt w' ->
  table w' = Some rows ->
  each_turn self
    (fun wa r =>
       exists vs p,
         user_draws wa r vs /\ List.length vs = 12%nat /\
         first_min (fun q => annual_cost q vs) (plans self) p /\
         chosen_plan r = name p /\
         user_annual_cost r = annual_cost p vs)
    (with_table w (Some [])) (user_ids n) rows.
Proof.
  intros Hnd Hrun Htable.
  destruct (run_ok self n w w' Hrun) as [rows' [Ht Hturns]].
  rewrite Htable in Ht. inversion Ht; subst rows'.
  revert Hturns. apply each_turn_weaken.
  intros uid wa wb r Hr _.
  exact (simulate_user_choice self uid wa wb r Hnd Hr).
Qed.

Lemma default_names_distinct (path : string) :
  NoDup (map name (plans (__init__ path))).
Proof.
  simpl. repeat constructor; simpl; intuition discriminate.
Qed.

Lemma chosen_plan_is_first_argmin_witness :
  each_turn default_engine
    (fun wa r =>
       exists vs p,
         user_draws wa r vs /\ List.length vs = 12%nat /\
         first_min (fun q => annual_cost q vs) (plans default_engine) p /\
         chosen_plan r = name p /\
         user_annual_cost r = annual_cost p vs)
    (with_table (scenario_A_world None) (Some [])) (user_ids 1)
    [scenario_A_row].
Proof.
  apply (chosen_plan_is_first_argmin default_engine 1 (scenario_A_world None)
           (mkWorld false [] [] (Some [scenario_A_row]))).
  - apply default_names_distinct.
  - apply scenario_A_run.
  - reflexivity.
Defined.

(** C7: fed with enough random values, a run for [n >= 0] users over a
    catalog that is not empty finishes and leaves exactly [n] rows, with
    the ids 1 to [n] in order; in each row [annual_visits] is the sum of
    the twelve draws of its user, [company_revenue] is [user_annual_cost],
    [company_cost] is [annual_visits * cost_per_visit] and
    [company_profit] is revenue minus cost. *)
Theorem run_produces_rows
    (self : SimulationEngine) (n : Z) (c : R) (K : nat) (w : World) :
  0 <= n ->
  plans self <> [] ->
  (0 <= c < 1)%R ->
  (c ^ K < exp (- 12))%R ->
  fed c (Z.to_nat n * (1 + 12 * S K)) w ->
  exists w' rows,
    run self n w = Ok tt w' /\
    table w' = Some rows /\
    Z.of_nat (List.length rows) = n /\
    map user_id rows = user_ids n /\
    each_turn self
      (fun wa r =>
         exists vs,
           user_draws wa r vs /\ List.length vs = 12%nat /\
           row_identities self vs r)
      (with_table w (Some [])) (user_ids n) rows.
Proof.
  intros Hn Hne Hc HK Hfed.
  destruct (run_total c K Hc HK self Hne n w Hfed) as [w' Hrun].
  destruct (run_ok self n w w' Hrun) as [rows [Ht Hturns]].
  exists w', rows.
  pose proof (each_turn_ids self _ _ _ _ Hturns) as Hids.
  split; [ exact Hrun | split; [ exact Ht | split; [ | split ] ] ].
  - rewrite <- (length_map user_id), Hids. apply user_ids_length. exact Hn.
  - exact Hids.
  - revert Hturns. apply each_turn_weaken.
    intros uid wa wb r Hr _.
    exact (proj2 (simulate_user_row self uid wa wb r Hr)).
Qed.

Lemma quiet_world_fed : fed 0 (Z.to_nat 2 * (1 + 12 * 2)) quiet_world.
Proof.
  unfold fed, quiet_world, bounded. cbn [py_random np_random USE_NUMPY].
  rewrite repeat_length.
  split; [ | split; [ vm_compute; lia | discriminate ] ].
  apply Forall_forall. intros x Hx. apply repeat_spec in Hx. subst. lra.
Qed.

Lemma run_produces_rows_witness :
  exists w' rows,
    run default_engine 2 quiet_world = Ok tt w' /\
    table w' = Some rows /\
    Z.of_nat (List.length rows) = 2 /\
    map user_id rows = user_ids 2 /\
    each_turn default_engine
      (fun wa r =>
         exists vs,
           user_draws wa r vs /\ List.length vs = 12%nat /\
           row_identities default_engine vs r)
      (with_table quiet_world (Some [])) (user_ids 2) rows.
Proof.
  apply (run_produces_rows default_engine 2 0 1 quiet_world).
  - lia.
  - discriminate.
  - lra.
  - simpl. rewrite Rmult_0_l. apply exp_pos.
  - exact quiet_world_fed.
Defined.

(** C10: a plan whose overage price is not negative never bills less than
    its monthly price; so, over a catalog of distinct names and of such
    plans, every row of a finished run has a [user_annual_cost], and a
    [company_revenue], of at least twelve times the least monthly price
    of the catalog. *)
Theorem annual_cost_at_least_base
    (self : SimulationEngine) (n : Z) (w w' : World) (rows : list row)
    (r : row) (pmin : plan) :
  (forall q, In q (plans self) -> 0 <= extra q) ->
  NoDup (map name (plans self)) ->
  run self n w = Ok tt w' ->
  table w' = Some rows ->
  In r rows ->
  In pmin (plans self) ->
  (forall q, In q (plans self) -> price pmin <= price q) ->
  (forall p v, 0 <= extra p -> price p <= monthly_bill p v) /\
  12 * price pmin <= user_annual_cost r /\
  12 * price pmin <= company_revenue r.
Proof.
  intros Hextra Hnd Hrun Htable Hr Hpmin Hleast.
  split; [ exact monthly_bill_base | ].
  destruct (run_ok self n w w' Hrun) as [rows' [Ht Hturns]].
  rewrite Htable in Ht. inversion Ht; subst rows'.
  assert (Hall :
            each_turn self
              (fun _ r0 =>
                 12 * price pmin <= user_annual_cost r0 /\
                 company_revenue r0 = user_annual_cost r0)
              (with_table w (Some [])) (user_ids n) rows).
  { revert Hturns. apply each_turn_weaken.
    intros uid wa wb r0 Hr0 _.
    destruct (simulate_user_choice self uid wa wb r0 Hnd Hr0)
      as [vs [p [_ [Hlen [Hmin [_ Hcost]]]]]].
    destruct (simulate_user_row self uid wa wb r0 Hr0)
      as [_ [vs' [_ [_ [_ [Hrev _]]]]]].
    split; [ | exact Hrev ].
    pose proof (first_min_in _ _ _ Hmin) as Hp.
    pose proof (annual_cost_lower p vs (Hextra p Hp)) as Hlow.
    rewrite Hlen in Hlow. specialize (Hleast p Hp).
    rewrite Hcost. lia. }
  destruct (each_turn_in self _ _ _ _ r Hall Hr) as [_ [Hcost Hrev]].
  rewrite Hrev. auto.
Qed.

Lemma annual_cost_at_least_base_witness :
  (forall p v, 0 <= extra p -> price p <= monthly_bill p v) /\
  12 * 20 <= user_annual_cost scenario_A_row /\
  12 * 20 <= company_revenue scenario_A_row.
Proof.
  apply (annual_cost_at_least_base default_engine 1 (scenario_A_world None)
           (mkWorld false [] [] (Some [scenario_A_row])) [scenario_A_row]
           scenario_A_row (mkPlan "Lite Plan" 20 (Visits 2) 15)).
  - apply default_extra_nonneg.
  - apply default_names_distinct.
  - apply scenario_A_run.
  - reflexivity.
  - left. reflexivity.
  - left. reflexivity.
  - simpl. intros q [<- | [<- | [<- | [<- | []]]]]; simpl; lia.
Defined.

(** ** The report *)

(** C3: for no user, [run] finishes and leaves the table empty; [analyze]
    then reads a NULL total and raises [TypeError] when it formats it. *)
Theorem analyze_after_empty_run (self : SimulationEngine) (w : World) :
  run self 0 w = Ok tt (with_table w (Some [])) /\
  analyze (with_table w (Some [])) = Raise TypeError /\
  (run self 0 ;;; analyze) w = Raise TypeError.
Proof.
  repeat split.
Qed.

(** C9: a run depends on the world through the flag and the random values
    only, not through what the table held before: two runs of one engine
    for the same number of users that agree on these end alike, with the
    same rows and, after [analyze], the same report. *)
Theorem run_deterministic
    (self : SimulationEngine) (n : Z) (numpy : bool) (draws : list R)
    (np : list (R -> Z)) (t1 t2 : option (list row)) :
  run self n (mkWorld numpy draws np t1) = run self n (mkWorld numpy draws np t2)
  /\
  (run self n ;;; analyze) (mkWorld numpy draws np t1)
  = (run self n ;;; analyze) (mkWorld numpy draws np t2).
Proof.
  assert (H : run self n (mkWorld numpy draws np t1)
              = run self n (mkWorld numpy draws np t2)) by reflexivity.
  split; [ exact H | ].
  unfold bind. rewrite H. reflexivity.
Qed.

(** * Further properties of the engine *)

(** ** What the fallback generator draws *)

Lemma knuth_loop_account (L : R) (draws : list R) :
  forall (p : R) (k v : Z) (rest : list R),
    knuth_loop L p k draws = Some (v, rest) ->
    exists used,
      draws = used ++ rest /\
      v = k + Z.of_nat (List.length used) - 1 /\
      (p * product used <= L)%R /\
      (forall pre suf,
          used = pre ++ suf -> suf <> [] -> (p * product pre > L)%R).
Proof.
  induction draws as [| u draws IH]; intros p k v rest H.
  - destruct (Rgt_dec p L) as [Hgt | Hle].
    + rewrite knuth_loop_starved in H by exact Hgt. discriminate.
    + rewrite knuth_loop_stop in H by lra. inversion H; subst.
      exists []. simpl. repeat split; try lia; try lra.
      intros pre suf E Hsuf. symmetry in E. apply app_eq_nil in E.
      destruct E as [_ E]. contradiction.
  - destruct (Rgt_dec p L) as [Hgt | Hle].
    + rewrite knuth_loop_step in H by exact Hgt.
      destruct (IH _ _ _ _ H) as [used [E [Hv [Hend Hpre]]]].
      exists (u :: used). simpl. rewrite E.
      split; [ reflexivity | split; [ lia | split ] ].
      * rewrite <- Rmult_assoc. exact Hend.
      * intros pre suf Esplit Hsuf. destruct pre as [| u0 pre].
        -- simpl. lra.
        -- simpl in Esplit. inversion Esplit; subst.
           simpl. rewrite <- Rmult_assoc. eapply Hpre; eauto.
    + rewrite knuth_loop_stop in H by lra. inversion H; subst.
      exists []. simpl. repeat split; try lia; try lra.
      intros pre suf E Hsuf. symmetry in E. apply app_eq_nil in E.
      destruct E as [_ E]. contradiction.
Qed.

(** The number of random values one call of the fallback takes. *)
Lemma poisson_fallback_draws (lam : R) (w w' : World) (v : Z) :
  USE_NUMPY w = false ->
  _generate_poisson_visit lam w = Ok v w' ->
  USE_NUMPY w' = false /\
  exists used,
    py_random w = used ++ py_random w' /\
    Z.of_nat (List.length used) = v + 1.
Proof.
  intros Hflag H. unfold _generate_poisson_visit in H. rewrite Hflag in H.
  destruct (knuth_loop (exp (- lam)) 1 0 (py_random w)) as [[v0 rest] |] eqn:E;
    [ | discriminate ].
  inversion H; subst. cbn [py_random USE_NUMPY].
  destruct (knuth_loop_account _ _ _ _ _ _ E) as [used [Eu [Hv _]]].
  split; [ reflexivity | ]. exists used. split; [ exact Eu | lia ].
Qed.



(** ** Which way [run] can end *)

Section Outcome.

Variable self : SimulationEngine.

Lemma poisson_no_raise (lam : R) (w : World) (e : exn) :
  _generate_poisson_visit lam w <> Raise e.
Proof.
  unfold _generate_poisson_visit. destruct (USE_NUMPY w).
  - destruct (np_random w); discriminate.
  - destruct (knuth_loop (exp (- lam)) 1 0 (py_random w)) as [[v rest] |];
      discriminate.
Qed.

Lemma draw_months_no_raise (lam : R) (n : nat) :
  forall w e, draw_months lam n w <> Raise e.
Proof.
  induction n as [| n IH]; intros w e; cbn [draw_months].
  - discriminate.
  - unfold bind.
    destruct (_generate_poisson_visit lam w) as [v w1 | e1 |] eqn:Ev.
    + destruct (draw_months lam n w1) as [vs w2 | e2 |] eqn:Evs;
        try discriminate.
      exfalso. exact (IH _ _ Evs).
    + exfalso. exact (poisson_no_raise _ _ _ Ev).
    + discriminate.
Qed.

(** A turn of the user loop ends with a row, or waits for random values,
    or, only when the catalog is empty, raises [ValueError]. *)
Lemma simulate_user_outcome (uid : Z) (w : World) :
  (exists r w', simulate_user self uid w = Ok r w') \/
  simulate_user self uid w = Starved \/
  (plans self = [] /\ simulate_user self uid w = Raise ValueError).
Proof.
  destruct (random w) as [u w1 | e |] eqn:Eu.
  - destruct (draw_months (snd (segment u)) 12 w1) as [vs w2 | e |] eqn:Evs.
    + destruct (plans self) as [| p ps] eqn:Eps.
      * right; right. split; [ reflexivity | ].
        unfold simulate_user, bind. rewrite Eu.
        destruct (segment u) as [utype lam]. cbn [snd] in Evs.
        rewrite months_draws by apply init_costs_keys.
        rewrite Evs, Eps.
        assert (Hempty : acc_costs [] vs (init_costs []) = []).
        { clear. induction vs as [| v vs IH]; [ reflexivity | exact IH ]. }
        rewrite Hempty. reflexivity.
      * left. assert (Hne : plans self <> []) by (rewrite Eps; discriminate).
        destruct (simulate_user_total self uid w w1 w2 u vs Hne Eu Evs)
          as [r Hr].
        eauto.
    + exfalso. exact (draw_months_no_raise _ _ _ _ Evs).
    + right; left. unfold simulate_user, bind. rewrite Eu.
      destruct (segment u) as [utype lam]. cbn [snd] in Evs.
      rewrite months_draws by apply init_costs_keys.
      rewrite Evs. reflexivity.
  - unfold random in Eu. destruct (py_random w); discriminate.
  - right; left. unfold simulate_user, bind. rewrite Eu. reflexivity.
Qed.

Lemma users_loop_outcome (ids : list Z) :
  forall acc w,
    (exists rows w', users_loop self ids acc w = Ok rows w') \/
    users_loop self ids acc w = Starved \/
    (plans self = [] /\ users_loop self ids acc w = Raise ValueError).
Proof.
  induction ids as [| uid ids IH]; intros acc w; cbn [users_loop].
  - left. unfold ret. eauto.
  - unfold bind.
    destruct (simulate_user_outcome uid w) as [[r [w1 E]] | [E | [Hnil E]]];
      rewrite E; auto.
Qed.

Lemma run_outcome (n : Z) (w : World) :
  (exists w', run self n w = Ok tt w') \/
  run self n w = Starved \/
  (plans self = [] /\ run self n w = Raise ValueError).
Proof.
  destruct (users_loop_outcome (user_ids n) [] (with_table w (Some [])))
    as [[rows [w1 E]] | [E | [Hnil E]]].
  - left. exists (with_table w1 (Some rows)). apply run_finishes. exact E.
  - right; left. unfold run, bind, setup_db. rewrite E. reflexivity.
  - right; right. split; [ exact Hnil | ].
    unfold run, bind, setup_db. rewrite E. reflexivity.
Qed.

End Outcome.

(** X2: over a catalog that is not empty [run] raises no exception,
    whatever the number of users, the random values and the table it
    finds: no read of [plan_annual_costs] misses its key, [min] has a key
    to return, the insert meets no duplicate id.  It ends normally or is
    still waiting for random values. *)
Theorem run_never_raises (self : SimulationEngine) (n : Z) (w : World) :
  plans self <> [] ->
  (exists w', run self n w = Ok tt w') \/ run self n w = Starved.
Proof.
  intros Hne.
  destruct (run_outcome self n w) as [H | [H | [Hnil _]]]; auto.
  contradiction.
Qed.

Lemma run_never_raises_witness :
  (exists w', run default_engine 3 (scenario_A_world None) = Ok tt w') \/
  run default_engine 3 (scenario_A_world None) = Starved.
Proof.
  apply (run_never_raises default_engine 3 (scenario_A_world None)).
  discriminate.
Defined.

(** X3: with an empty catalog and at least one user, a run that has the
    random values of its first user raises [ValueError]: the twelve months
    are drawn, then [min] finds [plan_annual_costs] empty. *)
Theorem run_empty_catalog
    (self : SimulationEngine) (n : Z) (c : R) (K : nat) (w : World) :
  plans self = [] ->
  1 <= n ->
  (0 <= c < 1)%R ->
  (c ^ K < exp (- 12))%R ->
  fed c (1 + 12 * S K) w ->
  run self n w = Raise ValueError.
Proof.
  intros Hnil Hn Hc HK Hfed.
  assert (Hids : exists ids, user_ids n = 1 :: ids).
  { unfold user_ids. destruct (Z.to_nat n) as [| m] eqn:E; [ lia | ].
    simpl. eauto. }
  destruct Hids as [ids Hids].
  destruct (random_total c (with_table w (Some [])) (12 * S K)%nat)
    as [u [w1 [Eu Hfed1]]].
  { apply (fed_with_table c Hc). exact Hfed. }
  assert (Hfed2 : fed c (12 * S K + 0) w1).
  { replace (12 * S K + 0)%nat with (12 * S K)%nat by lia. exact Hfed1. }
  destruct (draw_months_total c K Hc HK (snd (segment u)) 12
              (proj2 (segment_rate u)) w1 0%nat Hfed2) as [vs [w2 [Evs _]]].
  destruct (simulate_user_outcome self 1 (with_table w (Some [])))
    as [[r [w' E]] | [E | [_ E]]].
  - exfalso.
    destruct (simulate_user_ok self 1 _ _ _ E)
      as [u' [w1' [vs' [best [cost [_ [_ [Hmin _]]]]]]]].
    rewrite Hnil in Hmin.
    assert (Hempty : acc_costs [] vs' (init_costs []) = []).
    { clear. induction vs' as [| v vs' IH]; [ reflexivity | exact IH ]. }
    rewrite Hempty in Hmin. discriminate.
  - exfalso. unfold simulate_user, bind in E. rewrite Eu in E.
    destruct (segment u) as [utype lam]. cbn [snd] in Evs.
    rewrite months_draws in E by apply init_costs_keys.
    rewrite Evs in E.
    destruct (min_key _); [ destruct (dict_get _ _) | ]; discriminate.
  - unfold run, bind, setup_db. rewrite Hids. cbn [users_loop].
    unfold bind. rewrite E. reflexivity.
Qed.

Lemma run_empty_catalog_witness :
  run empty_catalog_engine 2 quiet_world = Raise ValueError.
Proof.
  apply (run_empty_catalog empty_catalog_engine 2 0 1 quiet_world).
  - reflexivity.
  - lia.
  - lra.
  - simpl. rewrite Rmult_0_l. apply exp_pos.
  - destruct quiet_world_fed as [Hb [Hlen Hnp]].
    split; [ exact Hb | split; [ | discriminate ] ].
    unfold quiet_world. cbn [py_random]. rewrite repeat_length.
    vm_compute. lia.
Defined.

(** ** Rows of a run without numpy *)

Section Fallback.

Variable self : SimulationEngine.

Lemma random_flag (w w' : World) (u : R) :
  random w = Ok u w' -> USE_NUMPY w' = USE_NUMPY w.
Proof.
  unfold random. destruct (py_random w); intros H; inversion H. reflexivity.
Qed.

Lemma draw_months_fallback (lam : R) (n : nat) :
  (0 < lam)%R ->
  forall w vs w',
    USE_NUMPY w = false ->
    draw_months lam n w = Ok vs w' ->
    USE_NUMPY w' = false /\
    Forall (fun v => 0 <= v) vs /\
    exists used,
      py_random w = used ++ py_random w' /\
      Z.of_nat (List.length used) = sum_visits vs + Z.of_nat n.
Proof.
  intros Hlam. induction n as [| n IH]; intros w vs w' Hflag H;
    cbn [draw_months] in H.
  - inversion H; subst. split; [ exact Hflag | split; [ constructor | ] ].
    exists []. split; reflexivity.
  - unfold bind in H.
    destruct (_generate_poisson_visit lam w) as [v w1 | e |] eqn:Ev;
      try discriminate.
    destruct (draw_months lam n w1) as [vs1 w2 | e |] eqn:Evs;
      try discriminate.
    inversion H; subst.
    destruct (poisson_fallback_draws lam w w1 v Hflag Ev)
      as [Hflag1 [used1 [E1 Hlen1]]].
    destruct (IH _ _ _ Hflag1 Evs) as [Hflag2 [Hpos [used2 [E2 Hlen2]]]].
    pose proof (poisson_fallback_nonneg lam w w1 v Hlam Hflag Ev) as Hv.
    split; [ exact Hflag2 | split; [ constructor; assumption | ] ].
    exists (used1 ++ used2). rewrite <- app_assoc, <- E2.
    split; [ exact E1 | ].
    rewrite length_app. cbn [sum_visits fold_right].
    change (fold_right Z.add 0 vs1) with (sum_visits vs1). lia.
Qed.

(** A turn without numpy takes 13 random values and one more for each
    visit of the year, which are not negative. *)
Lemma simulate_user_fallback (uid : Z) (w w' : World) (r : row) :
  USE_NUMPY w = false ->
  simulate_user self uid w = Ok r w' ->
  USE_NUMPY w' = false /\
  0 <= annual_visits r /\
  exists used,
    py_random w = used ++ py_random w' /\
    Z.of_nat (List.length used) = 13 + annual_visits r.
Proof.
  intros Hflag H.
  destruct (simulate_user_ok self uid w w' r H)
    as [u [w1 [vs [best [cost [Hu [Hvs [_ [_ ->]]]]]]]]].
  pose proof (random_flag _ _ _ Hu) as Hflag1. rewrite Hflag in Hflag1.
  destruct (draw_months_fallback _ 12 (proj1 (segment_rate u)) _ _ _ Hflag1 Hvs)
    as [Hflag2 [Hpos [used [E Hlen]]]].
  cbn [annual_visits].
  split; [ exact Hflag2 | split ].
  - clear - Hpos. induction Hpos as [| v vs Hv Hvs IH]; simpl.
    + lia.
    + change (fold_right Z.add 0 vs) with (sum_visits vs). lia.
  - unfold random in Hu. destruct (py_random w) as [| u0 rest] eqn:Epy;
      [ discriminate | ].
    inversion Hu; subst. cbn [py_random] in E.
    exists (u :: used). cbn [app List.length]. rewrite E.
    split; [ reflexivity | ].
    rewrite Nat2Z.inj_succ. change (Z.of_nat 12) with 12 in Hlen. lia.
Qed.

Lemma each_turn_fallback :
  forall ids w rows,
    USE_NUMPY w = false ->
    each_turn self (fun _ _ => True) w ids rows ->
    Forall (fun r => 0 <= annual_visits r) rows.
Proof.
  induction ids as [| uid ids IH]; intros w [| r rows] Hflag H;
    cbn [each_turn] in H; try contradiction; [ constructor | ].
  destruct H as [w' [Hr [_ Hrest]]].
  destruct (simulate_user_fallback uid w w' r Hflag Hr) as [Hflag' [Hv _]].
  constructor; [ exact Hv | exact (IH _ _ Hflag' Hrest) ].
Qed.

Lemma users_loop_fallback :
  forall ids acc w rows w',
    USE_NUMPY w = false ->
    users_loop self ids acc w = Ok rows w' ->
    exists new used,
      rows = acc ++ new /\
      py_random w = used ++ py_random w' /\
      Z.of_nat (List.length used)
      = 13 * Z.of_nat (List.length ids) + column_sum annual_visits new.
Proof.
  induction ids as [| uid ids IH]; intros acc w rows w' Hflag H;
    cbn [users_loop] in H.
  - inversion H; subst. exists [], []. rewrite app_nil_r.
    split; [ reflexivity | split; reflexivity ].
  - unfold bind in H.
    destruct (simulate_user self uid w) as [r w1 | e |] eqn:Er;
      try discriminate.
    destruct (simulate_user_fallback uid w w1 r Hflag Er)
      as [Hflag1 [_ [used1 [E1 Hlen1]]]].
    destruct (IH _ _ _ _ Hflag1 H) as [new [used2 [-> [E2 Hlen2]]]].
    exists (r :: new), (used1 ++ used2).
    rewrite <- !app_assoc, <- E2.
    split; [ reflexivity | split; [ exact E1 | ] ].
    rewrite length_app. unfold column_sum in *. cbn [map fold_right List.length].
    lia.
Qed.

End Fallback.

(** X4: without numpy, every row of a finished run has an
    [annual_visits] that is not negative: the rates [run] passes to the
    generator are positive, so the generator's [-1] at rate 0 never gets
    into a row.  With a cost per visit that is not negative, the company's
    cost is not negative and its profit is at most its revenue. *)
Theorem fallback_rows_nonneg
    (self : SimulationEngine) (n : Z) (w w' : World) (rows : list row)
    (r : row) :
  USE_NUMPY w = false ->
  0 <= cost_per_visit self ->
  run self n w = Ok tt w' ->
  table w' = Some rows ->
  In r rows ->
  0 <= annual_visits r /\
  0 <= company_cost r /\
  company_profit r <= company_revenue r.
Proof.
  intros Hflag Hcpv Hrun Htable Hr.
  destruct (run_ok self n w w' Hrun) as [rows' [Ht Hturns]].
  rewrite Htable in Ht. inversion Ht; subst rows'.
  assert (Hv : 0 <= annual_visits r).
  { pose proof (each_turn_fallback self _ (with_table w (Some [])) _
                  Hflag Hturns) as Hall.
    rewrite Forall_forall in Hall. exact (Hall r Hr). }
  assert (Hid : each_turn self
                  (fun _ r0 =>
                     company_cost r0 = annual_visits r0 * cost_per_visit self /\
                     company_profit r0 = company_revenue r0 - company_cost r0)
                  (with_table w (Some [])) (user_ids n) rows).
  { revert Hturns. apply each_turn_weaken. intros uid wa wb r0 Hr0 _.
    destruct (simulate_user_row self uid wa wb r0 Hr0)
      as [_ [vs [_ [_ [_ [_ [Hc Hp]]]]]]].
    auto. }
  destruct (each_turn_in self _ _ _ _ r Hid Hr) as [_ [Hc Hp]].
  split; [ exact Hv | ]. rewrite Hp, Hc. nia.
Qed.

Lemma fallback_rows_nonneg_witness :
  0 <= annual_visits scenario_A_row /\
  0 <= company_cost scenario_A_row /\
  company_profit scenario_A_row <= company_revenue scenario_A_row.
Proof.
  apply (fallback_rows_nonneg default_engine 1 (scenario_A_world None)
           (mkWorld false [] [] (Some [scenario_A_row])) [scenario_A_row]).
  - reflexivity.
  - simpl. lia.
  - apply scenario_A_run.
  - reflexivity.
  - left. reflexivity.
Defined.

(** X5: without numpy, a finished run has taken from [random.random()]
    thirteen values for each row, one for the segment and one to end each
    month, and one more for every visit recorded in the table. *)
Theorem run_fallback_draws
    (self : SimulationEngine) (n : Z) (w w' : World) :
  USE_NUMPY w = false ->
  run self n w = Ok tt w' ->
  exists rows used,
    table w' = Some rows /\
    py_random w = used ++ py_random w' /\
    Z.of_nat (List.length used)
    = 13 * Z.of_nat (List.length rows) + column_sum annual_visits rows.
Proof.
  intros Hflag Hrun. unfold run, bind, setup_db in Hrun.
  destruct (users_loop self (user_ids n) [] (with_table w (Some [])))
    as [rows w1 | e |] eqn:E; try discriminate.
  destruct (users_loop_fallback self _ _ (with_table w (Some [])) _ _ Hflag E)
    as [new [used [Hrows [Hused Hlen]]]].
  simpl in Hrows. subst new.
  destruct (users_loop_turns self _ _ _ _ _ E) as [new [Hrows [Hturns Ht]]].
  simpl in Hrows. subst new.
  pose proof (each_turn_ids self _ _ _ _ Hturns) as Hids.
  unfold insert_rows in Hrun. rewrite Ht in Hrun. simpl in Hrun.
  destruct (distinct (map user_id rows)); [ | discriminate ].
  inversion Hrun; subst. exists rows, used. cbn [table py_random with_table].
  split; [ reflexivity | split; [ exact Hused | ] ].
  rewrite Hlen, <- Hids, length_map. reflexivity.
Qed.

Lemma run_fallback_draws_witness :
  exists rows used,
    Some [scenario_A_row] = Some rows /\
    0%R :: year_of six_visits 12 = used ++ [] /\
    Z.of_nat (List.length used)
    = 13 * Z.of_nat (List.length rows) + column_sum annual_visits rows.
Proof.
  exact (run_fallback_draws default_engine 1 (scenario_A_world None)
           (mkWorld false [] [] (Some [scenario_A_row])) eq_refl
           (scenario_A_run None)).
Defined.

(** ** Bounds on what a user pays *)

Lemma unlimited_bill_is_price_aux (p : plan) (v : Z) :
  included p = Inf -> monthly_bill p v = price p.
Proof.
  intros Hinf. unfold monthly_bill, overage. rewrite Hinf. lia.
Qed.

Lemma annual_cost_unlimited (p : plan) (vs : list Z) :
  included p = Inf ->
  annual_cost p vs = Z.of_nat (List.length vs) * price p.
Proof.
  intros Hinf. induction vs as [| v vs IH].
  - reflexivity.
  - cbn [annual_cost fold_right List.length].
    change (fold_right (fun v acc => monthly_bill p v + acc) 0 vs)
      with (annual_cost p vs).
    rewrite IH, (unlimited_bill_is_price_aux p v Hinf). lia.
Qed.

(** X6: when the catalog, of distinct names, holds a plan without visit
    limit, no row of a finished run has a [user_annual_cost] above twelve
    times the monthly price of that plan, however many visits were drawn. *)
Theorem unlimited_plan_caps_cost
    (self : SimulationEngine) (n : Z) (w w' : World) (rows : list row)
    (r : row) (pinf : plan) :
  NoDup (map name (plans self)) ->
  In pinf (plans self) ->
  included pinf = Inf ->
  run self n w = Ok tt w' ->
  table w' = Some rows ->
  In r rows ->
  user_annual_cost r <= 12 * price pinf.
Proof.
  intros Hnd Hin Hinf Hrun Htable Hr.
  destruct (run_ok self n w w' Hrun) as [rows' [Ht Hturns]].
  rewrite Htable in Ht. inversion Ht; subst rows'.
  assert (Hall : each_turn self
                   (fun _ r0 => user_annual_cost r0 <= 12 * price pinf)
                   (with_table w (Some [])) (user_ids n) rows).
  { revert Hturns. apply each_turn_weaken. intros uid wa wb r0 Hr0 _.
    destruct (simulate_user_choice self uid wa wb r0 Hnd Hr0)
      as [vs [p [_ [Hlen [Hmin [_ Hcost]]]]]].
    pose proof (first_min_least _ _ _ pinf Hmin Hin) as Hle.
    cbn beta in Hle.
    rewrite (annual_cost_unlimited pinf vs Hinf), Hlen in Hle.
    rewrite Hcost. lia. }
  destruct (each_turn_in self _ _ _ _ r Hall Hr) as [_ H]. exact H.
Qed.

Lemma unlimited_plan_caps_cost_witness :
  user_annual_cost scenario_A_row <= 12 * 150.
Proof.
  apply (unlimited_plan_caps_cost default_engine 1 (scenario_A_world None)
           (mkWorld false [] [] (Some [scenario_A_row])) [scenario_A_row]
           scenario_A_row (mkPlan "Unlimited Plan" 150 Inf 0)).
  - apply default_names_distinct.
  - simpl. auto.
  - reflexivity.
  - apply scenario_A_run.
  - reflexivity.
  - left. reflexivity.
Defined.

Lemma annual_cost_constant (p : plan) (v : Z) (n : nat) :
  annual_cost p (repeat v n) = Z.of_nat n * monthly_bill p v.
Proof.
  induction n as [| n IH].
  - reflexivity.
  - cbn [repeat annual_cost fold_right].
    change (fold_right (fun v acc => monthly_bill p v + acc) 0 (repeat v n))
      with (annual_cost p (repeat v n)).
    rewrite IH. lia.
Qed.

(** X7: under the catalog of [__init__], a user who has the same number
    [v] of visits in each of the twelve months takes the Lite plan up to 4
    visits, the Standard plan from 5 to 10, the Chronic Care plan from 11
    to 24 and the Unlimited plan from 25 on, and pays twelve monthly bills
    of that plan; at 4, 10 and 24 two plans cost the same and the earlier
    one of the catalog is taken. *)
Theorem constant_visits_choice
    (path : string) (uid v : Z) (w w1 w2 : World) (u : R) :
  random w = Ok u w1 ->
  draw_months (snd (segment u)) 12 w1 = Ok (repeat v 12) w2 ->
  exists r p,
    simulate_user (__init__ path) uid w = Ok r w2 /\
    In p (plans (__init__ path)) /\
    name p = plan_for_constant_visits v /\
    chosen_plan r = plan_for_constant_visits v /\
    user_annual_cost r = 12 * monthly_bill p v.
Proof.
  intros Hu Hvs.
  assert (Hne : plans (__init__ path) <> []) by discriminate.
  destruct (simulate_user_total (__init__ path) uid w w1 w2 u (repeat v 12)
              Hne Hu Hvs) as [r Hr].
  destruct (simulate_user_choice (__init__ path) uid w w2 r
              (default_names_distinct path) Hr)
    as [vs [p [[u' [w1' [w2' [Hu' [_ Hvs']]]]] [_ [Hmin [Hplan Hcost]]]]]].
  assert (Eu : u' = u) by congruence. subst u'.
  assert (Ew : w1' = w1) by congruence. subst w1'.
  assert (Evs : vs = repeat v 12) by congruence. subst vs.
  exists r, p. split; [ exact Hr | ].
  pose proof (first_min_in _ _ _ Hmin) as Hin.
  split; [ exact Hin | ].
  rewrite Hplan, Hcost, annual_cost_constant.
  change (Z.of_nat 12) with 12.
  assert (Hname : name p = plan_for_constant_visits v);
    [ | rewrite Hname; auto ].
  destruct Hmin as [before [after [E [Hb Ha]]]].
  assert (Hb' : forall q, In q before -> monthly_bill p v < monthly_bill q v).
  { intros q Hq. specialize (Hb q Hq). cbn beta in Hb.
    rewrite !annual_cost_constant in Hb. lia. }
  assert (Ha' : forall q, In q after -> monthly_bill p v <= monthly_bill q v).
  { intros q Hq. specialize (Ha q Hq). cbn beta in Ha.
    rewrite !annual_cost_constant in Ha. lia. }
  clear Hb Ha Hcost Hplan Hr Hin.
  unfold plan_for_constant_visits.
  cbn [plans __init__] in E.
  destruct before as [| b1 [| b2 [| b3 [| b4 before]]]];
    cbn [app] in E; inversion E; subst; clear E.
  - pose proof (Ha' _ (or_introl eq_refl)) as H1.
    pose proof (Ha' _ (or_intror (or_introl eq_refl))) as H2.
    pose proof (Ha' _ (or_intror (or_intror (or_introl eq_refl)))) as H3.
    unfold monthly_bill, overage in H1, H2, H3.
    cbn [price included extra] in H1, H2, H3.
    destruct (Z.leb_spec v 4); [ reflexivity | exfalso; lia ].
  - pose proof (Hb' _ (or_introl eq_refl)) as H1.
    pose proof (Ha' _ (or_introl eq_refl)) as H2.
    pose proof (Ha' _ (or_intror (or_introl eq_refl))) as H3.
    unfold monthly_bill, overage in H1, H2, H3.
    cbn [price included extra] in H1, H2, H3.
    destruct (Z.leb_spec v 4); [ exfalso; lia | ].
    destruct (Z.leb_spec v 10); [ reflexivity | exfalso; lia ].
  - pose proof (Hb' _ (or_introl eq_refl)) as H1.
    pose proof (Hb' _ (or_intror (or_introl eq_refl))) as H2.
    pose proof (Ha' _ (or_introl eq_refl)) as H3.
    unfold monthly_bill, overage in H1, H2, H3.
    cbn [price included extra] in H1, H2, H3.
    destruct (Z.leb_spec v 4); [ exfalso; lia | ].
    destruct (Z.leb_spec v 10); [ exfalso; lia | ].
    destruct (Z.leb_spec v 24); [ reflexivity | exfalso; lia ].
  - pose proof (Hb' _ (or_introl eq_refl)) as H1.
    pose proof (Hb' _ (or_intror (or_introl eq_refl))) as H2.
    pose proof (Hb' _ (or_intror (or_intror (or_introl eq_refl)))) as H3.
    unfold monthly_bill, overage in H1, H2, H3.
    cbn [price included extra] in H1, H2, H3.
    destruct (Z.leb_spec v 4); [ exfalso; lia | ].
    destruct (Z.leb_spec v 10); [ exfalso; lia | ].
    destruct (Z.leb_spec v 24); [ exfalso; lia | reflexivity ].
  - exfalso. destruct before; discriminate.
Qed.

Lemma constant_visits_choice_witness :
  exists r p,
    simulate_user default_engine 1 (scenario_A_world None)
    = Ok r (mkWorld false [] [] None) /\
    In p (plans default_engine) /\
    name p = "Standard Plan" /\
    chosen_plan r = "Standard Plan" /\
    user_annual_cost r = 12 * monthly_bill p 6.
Proof.
  destruct (scenario_A_draws None) as [Hu Hvs].
  exact (constant_visits_choice "healthcare_simulation.db" 1 6 _ _ _ _ Hu Hvs).
Defined.

(** ** The report of [analyze] *)

Section NameOrder.

Lemma ascii_compare_lt_trans (a b c : Ascii.ascii) :
  Ascii.compare a b = Lt -> Ascii.compare b c = Lt -> Ascii.compare a c = Lt.
Proof.
  unfold Ascii.compare. rewrite !N.compare_lt_iff. apply N.lt_trans.
Qed.

Lemma string_compare_lt_trans (a : string) :
  forall b c,
    String.compare a b = Lt -> String.compare b c = Lt ->
    String.compare a c = Lt.
Proof.
  induction a as [| x a IH]; intros [| y b] [| z c]; simpl;
    try discriminate; auto.
  destruct (Ascii.compare x y) eqn:Exy; try discriminate.
  - apply Ascii.compare_eq_iff in Exy. subst y.
    destruct (Ascii.compare x z); try discriminate; auto.
    apply IH.
  - intros _. destruct (Ascii.compare y z) eqn:Eyz; try discriminate.
    + apply Ascii.compare_eq_iff in Eyz. subst z. rewrite Exy. auto.
    + rewrite (ascii_compare_lt_trans _ _ _ Exy Eyz). auto.
Qed.

Lemma ltb_trans (a b c : string) :
  String.ltb a b = true -> String.ltb b c = true -> String.ltb a c = true.
Proof.
  unfold String.ltb. intros Hab Hbc.
  destruct (String.compare a b) eqn:Eab; try discriminate.
  destruct (String.compare b c) eqn:Ebc; try discriminate.
  rewrite (string_compare_lt_trans _ _ _ Eab Ebc). reflexivity.
Qed.

Lemma ltb_irrefl (a : string) : String.ltb a a = false.
Proof.
  unfold String.ltb. pose proof (String.compare_antisym a a) as H.
  destruct (String.compare a a); try reflexivity. discriminate.
Qed.

Lemma ltb_other (a b : string) :
  String.eqb b a = false -> String.ltb a b = false -> String.ltb b a = true.
Proof.
  unfold String.ltb. intros Hne Hlt.
  rewrite (String.compare_antisym b a).
  destruct (String.compare a b) eqn:E; try discriminate; try reflexivity.
  apply String.compare_eq_iff in E. subst.
  rewrite String.eqb_refl in Hne. discriminate.
Qed.

End NameOrder.

Section Report.

Lemma count_into_names (k : string) (g : list (string * nat)) :
  forall x, In x (count_into k g) -> fst x = k \/ In (fst x) (map fst g).
Proof.
  induction g as [| [k' c] g IH]; simpl; intros x Hx.
  - destruct Hx as [<- | []]. left. reflexivity.
  - destruct (String.eqb k' k).
    + destruct Hx as [<- | Hx]; simpl; auto.
      right. right. apply in_map. exact Hx.
    + destruct (String.ltb k k').
      * destruct Hx as [<- | [<- | Hx]]; simpl; auto.
        right. right. apply in_map. exact Hx.
      * destruct Hx as [<- | Hx]; simpl; auto.
        destruct (IH x Hx); auto.
Qed.

Lemma count_into_sorted (k : string) (g : list (string * nat)) :
  StronglySorted by_name g -> StronglySorted by_name (count_into k g).
Proof.
  induction 1 as [| [k' c] g Hs IH Hall]; simpl.
  - repeat constructor.
  - destruct (String.eqb k' k) eqn:Eeq.
    + constructor; assumption.
    + destruct (String.ltb k k') eqn:Elt.
      * constructor; [ constructor; assumption | ].
        constructor; [ exact Elt | ].
        rewrite Forall_forall in *. intros x Hx. unfold by_name in *.
        simpl in *. eapply ltb_trans; eauto.
      * constructor; [ exact IH | ].
        rewrite Forall_forall in *. intros x Hx. unfold by_name. simpl.
        destruct (count_into_names k g x Hx) as [-> | Hin].
        -- apply ltb_other; assumption.
        -- apply in_map_iff in Hin. destruct Hin as [y [Ey Hy]].
           rewrite <- Ey. exact (Hall y Hy).
Qed.

Lemma group_count_sorted (t : list row) : StronglySorted by_name (group_count t).
Proof.
  unfold group_count.
  assert (G : forall g, StronglySorted by_name g ->
                        StronglySorted by_name
                          (fold_left (fun g r => count_into (chosen_plan r) g) t g)).
  { induction t as [| r t IH]; simpl; intros g Hg; [ exact Hg | ].
    apply IH, count_into_sorted, Hg. }
  apply G. constructor.
Qed.

Lemma sorted_names_distinct (g : list (string * nat)) :
  StronglySorted by_name g -> NoDup (map fst g).
Proof.
  induction 1 as [| x g Hs IH Hall]; simpl; constructor; [ | exact IH ].
  intros Hin. apply in_map_iff in Hin. destruct Hin as [y [Ey Hy]].
  rewrite Forall_forall in Hall. specialize (Hall y Hy).
  unfold by_name in Hall. rewrite Ey, ltb_irrefl in Hall. discriminate.
Qed.

Lemma line_count_count_into (k0 k : string) (g : list (string * nat)) :
  line_count k0 (count_into k g)
  = (line_count k0 g + (if String.eqb k k0 then 1 else 0))%nat.
Proof.
  induction g as [| [k' c] g IH]; simpl.
  - destruct (String.eqb k k0); reflexivity.
  - destruct (String.eqb_spec k' k) as [-> | Hne]; simpl.
    + destruct (String.eqb k k0); lia.
    + destruct (String.ltb k k'); simpl.
      * destruct (String.eqb k k0), (String.eqb k' k0); lia.
      * rewrite IH. destruct (String.eqb k k0), (String.eqb k' k0); lia.
Qed.

Lemma line_count_group_count (k0 : string) (t : list row) :
  line_count k0 (group_count t) = chosen_count k0 t.
Proof.
  unfold group_count, chosen_count.
  assert (G : forall g,
             line_count k0 (fold_left (fun g r => count_into (chosen_plan r) g) t g)
             = (line_count k0 g
                + List.length (filter (fun r => String.eqb (chosen_plan r) k0) t))%nat).
  { induction t as [| r t IH]; simpl; intros g; [ lia | ].
    rewrite IH, line_count_count_into.
    destruct (String.eqb (chosen_plan r) k0); simpl; lia. }
  rewrite G. reflexivity.
Qed.

Lemma total_count_count_into (k : string) (g : list (string * nat)) :
  total_count (count_into k g) = S (total_count g).
Proof.
  induction g as [| [k' c] g IH]; simpl; [ reflexivity | ].
  destruct (String.eqb k' k); simpl; [ lia | ].
  destruct (String.ltb k k'); simpl; [ lia | ]. rewrite IH. lia.
Qed.

Lemma total_count_group_count (t : list row) :
  total_count (group_count t) = List.length t.
Proof.
  unfold group_count.
  assert (G : forall g,
             total_count (fold_left (fun g r => count_into (chosen_plan r) g) t g)
             = (total_count g + List.length t)%nat).
  { induction t as [| r t IH]; simpl; intros g; [ lia | ].
    rewrite IH, total_count_count_into. lia. }
  rewrite G. reflexivity.
Qed.

Lemma count_into_positive (k : string) (g : list (string * nat)) :
  Forall (fun kc => (1 <= snd kc)%nat) g ->
  Forall (fun kc => (1 <= snd kc)%nat) (count_into k g).
Proof.
  induction 1 as [| [k' c] g Hc Hg IH]; simpl.
  - repeat constructor.
  - destruct (String.eqb k' k); [ constructor; simpl in *; [ lia | exact Hg ] | ].
    destruct (String.ltb k k').
    + constructor; [ simpl; lia | constructor; assumption ].
    + constructor; assumption.
Qed.

Lemma group_count_positive (t : list row) :
  Forall (fun kc => (1 <= snd kc)%nat) (group_count t).
Proof.
  unfold group_count.
  assert (G : forall g, Forall (fun kc => (1 <= snd kc)%nat) g ->
                        Forall (fun kc => (1 <= snd kc)%nat)
                          (fold_left (fun g r => count_into (chosen_plan r) g) t g)).
  { induction t as [| r t IH]; simpl; intros g Hg; [ exact Hg | ].
    apply IH, count_into_positive, Hg. }
  apply G. constructor.
Qed.

Lemma insert_desc_perm (x : string * nat) (l : list (string * nat)) :
  Permutation (insert_desc x l) (x :: l).
Proof.
  induction l as [| y l IH]; simpl; [ reflexivity | ].
  destruct (Nat.ltb (snd y) (snd x)); [ reflexivity | ].
  rewrite IH. apply perm_swap.
Qed.

Lemma order_by_count_desc_perm (g : list (string * nat)) :
  Permutation (order_by_count_desc g) g.
Proof.
  induction g as [| x g IH]; simpl; [ reflexivity | ].
  rewrite insert_desc_perm. constructor. exact IH.
Qed.

Lemma insert_desc_sorted (x : string * nat) (l : list (string * nat)) :
  Sorted by_count_desc l -> Sorted by_count_desc (insert_desc x l).
Proof.
  induction 1 as [| y l Hs IH Hhd]; simpl.
  - repeat constructor.
  - destruct (Nat.ltb_spec (snd y) (snd x)) as [Hlt | Hge].
    + constructor; [ constructor; assumption | ].
      constructor. unfold by_count_desc. lia.
    + constructor; [ exact IH | ].
      destruct l as [| z l]; simpl.
      * constructor. unfold by_count_desc. lia.
      * destruct (Nat.ltb (snd z) (snd x)).
        -- constructor. unfold by_count_desc. lia.
        -- inversion Hhd; subst. constructor. assumption.
Qed.

Lemma order_by_count_desc_sorted (g : list (string * nat)) :
  StronglySorted by_count_desc (order_by_count_desc g).
Proof.
  apply Sorted_StronglySorted.
  - intros a b c Hab Hbc. unfold by_count_desc in *. lia.
  - induction g as [| x g IH]; simpl; [ constructor | ].
    apply insert_desc_sorted, IH.
Qed.

Lemma line_count_perm (k : string) (l l' : list (string * nat)) :
  Permutation l l' -> line_count k l = line_count k l'.
Proof.
  induction 1 as [| x l l' Hp IH | x y l | l l' l'' H1 IH1 H2 IH2]; simpl.
  - reflexivity.
  - rewrite IH. reflexivity.
  - destruct (String.eqb (fst x) k), (String.eqb (fst y) k); lia.
  - congruence.
Qed.

Lemma total_count_perm (l l' : list (string * nat)) :
  Permutation l l' -> total_count l = total_count l'.
Proof.
  induction 1 as [| x l l' Hp IH | x y l | l l' l'' H1 IH1 H2 IH2]; simpl;
    try lia.
Qed.

Lemma line_count_in (k : string) (c : nat) (l : list (string * nat)) :
  NoDup (map fst l) -> In (k, c) l -> line_count k l = c.
Proof.
  induction l as [| [k' c'] l IH]; simpl; intros Hnd Hin; [ contradiction | ].
  inversion Hnd as [| ? ? Hnot Hnd']; subst.
  assert (Habsent : forall l0, ~ In k (map fst l0) -> line_count k l0 = 0%nat).
  { clear. induction l0 as [| [k1 c1] l0 IH0]; simpl; intros Hn; [ reflexivity | ].
    destruct (String.eqb_spec k1 k) as [-> | Hne].
    - exfalso. apply Hn. left. reflexivity.
    - apply IH0. intros H. apply Hn. right. exact H. }
  destruct Hin as [E | Hin].
  - inversion E; subst. rewrite String.eqb_refl, Habsent by exact Hnot. lia.
  - destruct (String.eqb_spec k' k) as [-> | Hne].
    + exfalso. apply Hnot. apply (in_map fst) in Hin. exact Hin.
    + apply IH; assumption.
Qed.

Lemma line_count_present (k : string) (l : list (string * nat)) :
  (1 <= line_count k l)%nat -> exists c, In (k, c) l.
Proof.
  induction l as [| [k' c'] l IH]; simpl; intros H; [ lia | ].
  destruct (String.eqb_spec k' k) as [-> | Hne].
  - exists c'. left. reflexivity.
  - destruct (IH H) as [c Hc]. exists c. right. exact Hc.
Qed.

(** The lines [analyze] prints, whatever the table holds: every plan
    chosen at least once has one line, with the number of its rows. *)
Lemma plan_lines_exact (t : list row) :
  let lines := order_by_count_desc (group_count t) in
  NoDup (map fst lines) /\
  total_count lines = List.length t /\
  forall k c,
    In (k, c) lines <-> c = chosen_count k t /\ (1 <= c)%nat.
Proof.
  intros lines.
  pose proof (order_by_count_desc_perm (group_count t)) as Hperm.
  fold lines in Hperm.
  assert (Hnd : NoDup (map fst lines)).
  { apply (Permutation_NoDup (l := map fst (group_count t))).
    - apply Permutation_map. symmetry. exact Hperm.
    - apply sorted_names_distinct, group_count_sorted. }
  assert (Hcount : forall k, line_count k lines = chosen_count k t).
  { intros k. rewrite (line_count_perm k _ _ Hperm).
    apply line_count_group_count. }
  split; [ exact Hnd | split ].
  - rewrite (total_count_perm _ _ Hperm). apply total_count_group_count.
  - intros k c. split.
    + intros Hin. split.
      * rewrite <- Hcount. symmetry. apply line_count_in; assumption.
      * pose proof (group_count_positive t) as Hpos.
        rewrite Forall_forall in Hpos.
        apply (Hpos (k, c)).
        apply (Permutation_in _ Hperm). exact Hin.
    + intros [-> Hc]. rewrite <- Hcount in Hc.
      destruct (line_count_present k lines Hc) as [c' Hc'].
      pose proof (line_count_in k c' lines Hnd Hc') as E.
      rewrite Hcount in E. rewrite E. exact Hc'.
Qed.

End Report.

Lemma analyze_ok_inv (w w' : World) (rep : report) :
  analyze w = Ok rep w' ->
  w' = w /\
  exists t,
    table w = Some t /\ t <> [] /\
    total_profit rep = column_sum company_profit t /\
    plan_selection rep = order_by_count_desc (group_count t).
Proof.
  unfold analyze. destruct (table w) as [t |]; [ | discriminate ].
  destruct t as [| r t]; [ discriminate | ].
  cbn [sql_sum map]. intros H. inversion H; subst.
  split; [ reflexivity | ].
  exists (r :: t). repeat split. discriminate.
Qed.

Lemma analyze_nonempty (w : World) (t : list row) :
  table w = Some t -> t <> [] ->
  analyze w
  = Ok (mkReport (column_sum company_profit t)
                 (order_by_count_desc (group_count t))) w.
Proof.
  intros Ht Hne. unfold analyze. rewrite Ht.
  destruct t as [| r t]; [ contradiction | reflexivity ].
Qed.

(** X8: the plan lines of the report name each plan once; a plan has a
    line exactly when some row of the table chose it, and the line then
    carries the number of these rows; a plan nobody chose has no line. *)
Theorem report_lines_exact (w w' : World) (rep : report) (t : list row) :
  analyze w = Ok rep w' ->
  table w = Some t ->
  NoDup (map fst (plan_selection rep)) /\
  forall k c,
    In (k, c) (plan_selection rep) <-> c = chosen_count k t /\ (1 <= c)%nat.
Proof.
  intros H Ht.
  destruct (analyze_ok_inv w w' rep H) as [_ [t' [Ht' [_ [_ Hlines]]]]].
  rewrite Ht in Ht'. inversion Ht'; subst t'. rewrite Hlines.
  destruct (plan_lines_exact t) as [Hnd [_ Hexact]].
  split; assumption.
Qed.

Lemma report_lines_exact_witness :
  NoDup (map fst [("Standard Plan", 2%nat); ("Lite Plan", 1%nat)]) /\
  forall k c,
    In (k, c) [("Standard Plan", 2%nat); ("Lite Plan", 1%nat)]
    <-> c = chosen_count k sample_table /\ (1 <= c)%nat.
Proof.
  apply (report_lines_exact
           (mkWorld false [] [] (Some sample_table))
           (mkWorld false [] [] (Some sample_table))
           (mkReport (-2880) [("Standard Plan", 2%nat); ("Lite Plan", 1%nat)])
           sample_table);
    reflexivity.
Defined.

(** X9: the plan lines of the report come in descending order of their
    counts: no line has a larger count than a line before it. *)
Theorem report_lines_descending (w w' : World) (rep : report) :
  analyze w = Ok rep w' ->
  StronglySorted by_count_desc (plan_selection rep).
Proof.
  intros H.
  destruct (analyze_ok_inv w w' rep H) as [_ [t [_ [_ [_ Hlines]]]]].
  rewrite Hlines. apply order_by_count_desc_sorted.
Qed.

Lemma report_lines_descending_witness :
  StronglySorted by_count_desc [("Standard Plan", 2%nat); ("Lite Plan", 1%nat)].
Proof.
  apply (report_lines_descending
           (mkWorld false [] [] (Some sample_table))
           (mkWorld false [] [] (Some sample_table))
           (mkReport (-2880) [("Standard Plan", 2%nat); ("Lite Plan", 1%nat)])).
  reflexivity.
Defined.

(** ** [run] followed by [analyze] *)

Section RunThenAnalyze.

Variable self : SimulationEngine.

Lemma dict_set_keys_sub (d : dict) (k k0 : string) (v : Z) :
  In k0 (map fst (dict_set d k v)) -> In k0 (map fst d) \/ k0 = k.
Proof.
  induction d as [| [k' v'] d IH]; simpl.
  - intros [<- | []]. right. reflexivity.
  - destruct (String.eqb k' k); simpl; intros [E | Hin]; auto.
    destruct (IH Hin); auto.
Qed.

Lemma init_costs_names (ps : list plan) (k : string) :
  In k (map fst (init_costs ps)) -> In k (map name ps).
Proof.
  unfold init_costs.
  assert (G : forall todo d,
             In k (map fst (fold_left (fun d p => dict_set d (name p) 0) todo d)) ->
             In k (map fst d) \/ In k (map name todo)).
  { induction todo as [| q todo IH]; simpl; intros d H; [ auto | ].
    destruct (IH _ H) as [Hd | Ht]; [ | auto ].
    destruct (dict_set_keys_sub _ _ _ _ Hd) as [Hd' | ->]; auto. }
  intros H. destruct (G ps [] H) as [[] | Hin]. exact Hin.
Qed.

Lemma simulate_user_plan_in_catalog (uid : Z) (w w' : World) (r : row) :
  simulate_user self uid w = Ok r w' ->
  In (chosen_plan r) (map name (plans self)).
Proof.
  intros H. destruct (simulate_user_ok self uid w w' r H)
    as [u [w1 [vs [best [cost [_ [_ [Hmin [_ ->]]]]]]]]].
  cbn [chosen_plan]. apply init_costs_names.
  rewrite <- (acc_costs_keys (plans self) vs)
    by (intros p Hp; apply init_costs_keys; exact Hp).
  destruct (min_key_first _ _ Hmin) as [l1 [v [l2 [E _]]]].
  rewrite E, map_app, in_app_iff. right. left. reflexivity.
Qed.

Lemma column_sum_profit (rows : list row) :
  Forall (fun r =>
            company_profit r
            = user_annual_cost r - annual_visits r * cost_per_visit self) rows ->
  column_sum company_profit rows
  = column_sum user_annual_cost rows
    - cost_per_visit self * column_sum annual_visits rows.
Proof.
  unfold column_sum. induction 1 as [| r rows Hr Hrows IH]; simpl; [ lia | ].
  rewrite IH, Hr. lia.
Qed.

Lemma run_rows_facts (n : Z) (w w1 : World) :
  run self n w = Ok tt w1 ->
  exists rows,
    table w1 = Some rows /\
    List.length rows = Z.to_nat n /\
    Forall (fun r =>
              company_profit r
              = user_annual_cost r - annual_visits r * cost_per_visit self /\
              In (chosen_plan r) (map name (plans self))) rows.
Proof.
  intros Hrun. destruct (run_ok self n w w1 Hrun) as [rows [Ht Hturns]].
  exists rows. split; [ exact Ht | split ].
  - rewrite <- (length_map user_id), (each_turn_ids self _ _ _ _ Hturns).
    unfold user_ids. rewrite length_map, length_seq. reflexivity.
  - apply Forall_forall. intros r Hr.
    assert (Hall : each_turn self
                     (fun _ r0 =>
                        company_profit r0
                        = user_annual_cost r0
                          - annual_visits r0 * cost_per_visit self /\
                        In (chosen_plan r0) (map name (plans self)))
                     (with_table w (Some [])) (user_ids n) rows).
    { revert Hturns. apply each_turn_weaken. intros uid wa wb r0 Hr0 _.
      split; [ | exact (simulate_user_plan_in_catalog uid wa wb r0 Hr0) ].
      destruct (simulate_user_row self uid wa wb r0 Hr0)
        as [_ [vs [_ [_ [_ [Hrev [Hc Hp]]]]]]].
      rewrite Hp, Hrev, Hc. reflexivity. }
    destruct (each_turn_in self _ _ _ _ r Hall Hr) as [_ H]. exact H.
Qed.

End RunThenAnalyze.

(** X10: when [analyze] follows a finished [run] and reports, it leaves
    the world as it was; the total it prints is the sum of the rows'
    [user_annual_cost] minus [cost_per_visit] times the sum of their
    [annual_visits], and the counts of its plan lines add up to the
    number of users. *)
Theorem report_after_run
    (self : SimulationEngine) (n : Z) (w w1 w2 : World) (rep : report) :
  run self n w = Ok tt w1 ->
  analyze w1 = Ok rep w2 ->
  w2 = w1 /\
  exists rows,
    table w1 = Some rows /\
    total_profit rep
    = column_sum user_annual_cost rows
      - cost_per_visit self * column_sum annual_visits rows /\
    Z.of_nat (total_count (plan_selection rep)) = n.
Proof.
  intros Hrun Han.
  destruct (analyze_ok_inv w1 w2 rep Han) as [Hw [t [Ht [Hne [Htot Hlines]]]]].
  destruct (run_rows_facts self n w w1 Hrun) as [rows [Ht' [Hlen Hall]]].
  rewrite Ht in Ht'. inversion Ht'; subst rows.
  split; [ exact Hw | ]. exists t. split; [ exact Ht | split ].
  - rewrite Htot. apply column_sum_profit.
    revert Hall. apply Forall_impl. intros r [H _]. exact H.
  - rewrite Hlines.
    destruct (plan_lines_exact t) as [_ [Htotal _]]. rewrite Htotal, Hlen.
    destruct t as [| r t]; [ contradiction | ].
    simpl in Hlen. lia.
Qed.

Lemma report_after_run_witness :
  exists rows,
    Some [scenario_A_row] = Some rows /\
    -1560
    = column_sum user_annual_cost rows - 30 * column_sum annual_visits rows /\
    Z.of_nat (total_count [("Standard Plan", 1%nat)]) = 1.
Proof.
  exact (proj2 (report_after_run default_engine 1 (scenario_A_world None)
                  (mkWorld false [] [] (Some [scenario_A_row]))
                  (mkWorld false [] [] (Some [scenario_A_row]))
                  (mkReport (-1560) [("Standard Plan", 1%nat)])
                  (scenario_A_run None) eq_refl)).
Defined.

(** X11: after a finished [run], every plan line of the report names a
    plan of the engine's catalog. *)
Theorem report_names_in_catalog
    (self : SimulationEngine) (n : Z) (w w1 w2 : World) (rep : report)
    (k : string) (c : nat) :
  run self n w = Ok tt w1 ->
  analyze w1 = Ok rep w2 ->
  In (k, c) (plan_selection rep) ->
  In k (map name (plans self)).
Proof.
  intros Hrun Han Hin.
  destruct (analyze_ok_inv w1 w2 rep Han) as [_ [t [Ht [_ [_ Hlines]]]]].
  destruct (run_rows_facts self n w w1 Hrun) as [rows [Ht' [_ Hall]]].
  rewrite Ht in Ht'. inversion Ht'; subst rows.
  rewrite Hlines in Hin.
  destruct (plan_lines_exact t) as [_ [_ Hexact]].
  apply Hexact in Hin. destruct Hin as [-> Hc].
  unfold chosen_count in Hc.
  destruct (filter (fun r => String.eqb (chosen_plan r) k) t) as [| r rs] eqn:E;
    [ simpl in Hc; lia | ].
  assert (Hr : In r (filter (fun r => String.eqb (chosen_plan r) k) t))
    by (rewrite E; left; reflexivity).
  apply filter_In in Hr. destruct Hr as [Hr Hk].
  apply String.eqb_eq in Hk. subst k.
  rewrite Forall_forall in Hall. exact (proj2 (Hall r Hr)).
Qed.

Lemma report_names_in_catalog_witness :
  In "Standard Plan" (map name (plans default_engine)).
Proof.
  apply (report_names_in_catalog default_engine 1 (scenario_A_world None)
           (mkWorld false [] [] (Some [scenario_A_row]))
           (mkWorld false [] [] (Some [scenario_A_row]))
           (mkReport (-1560) [("Standard Plan", 1%nat)])
           "Standard Plan" 1%nat).
  - apply scenario_A_run.
  - reflexivity.
  - left. reflexivity.
Defined.

(** ** The command line *)

Lemma report_after_run_aux
    (self : SimulationEngine) (n : Z) (w w1 : World) (rep : report) :
  run self n w = Ok tt w1 ->
  analyze w1 = Ok rep w1 ->
  Z.of_nat (total_count (plan_selection rep)) = n /\
  forall k c, In (k, c) (plan_selection rep) -> In k (map name (plans self)).
Proof.
  intros Hrun Han.
  destruct (analyze_ok_inv w1 w1 rep Han) as [_ [t [Ht [Hne [_ Hlines]]]]].
  destruct (run_rows_facts self n w w1 Hrun) as [rows [Ht' [Hlen Hall]]].
  rewrite Ht in Ht'. inversion Ht'; subst rows.
  destruct (plan_lines_exact t) as [_ [Htotal Hexact]].
  rewrite Hlines. split.
  - rewrite Htotal, Hlen. destruct t as [| r t]; [ contradiction | ].
    simpl in Hlen. lia.
  - intros k c Hin. apply Hexact in Hin. destruct Hin as [-> Hc].
    unfold chosen_count in Hc.
    destruct (filter (fun r => String.eqb (chosen_plan r) k) t) as [| r rs] eqn:E;
      [ simpl in Hc; lia | ].
    assert (Hr : In r (filter (fun r => String.eqb (chosen_plan r) k) t))
      by (rewrite E; left; reflexivity).
    apply filter_In in Hr. destruct Hr as [Hr Hk].
    apply String.eqb_eq in Hk. subst k.
    rewrite Forall_forall in Hall. exact (proj2 (Hall r Hr)).
Qed.

(** X12: called with [--users] zero or negative, the command raises
    [TypeError] on every world: [range] is empty, the table stays empty
    and [analyze] formats a NULL total. *)
Theorem command_without_users (users : Z) (w : World) :
  users <= 0 ->
  run_simulation_command users w = Raise TypeError.
Proof.
  intros Hn. unfold run_simulation_command, run, bind, setup_db.
  assert (Hids : user_ids users = []).
  { unfold user_ids. replace (Z.to_nat users) with 0%nat by lia. reflexivity. }
  rewrite Hids. reflexivity.
Qed.

Lemma command_without_users_witness :
  run_simulation_command (-5) (scenario_A_world None) = Raise TypeError.
Proof.
  apply (command_without_users (-5) (scenario_A_world None)). lia.
Defined.

(** X13: called for at least one user on a world that holds enough random
    values, the command ends with a report: the table holds one row per
    user, the total is the sum of their profits, and the plan lines, all
    of plans of the catalog, count every user once. *)
Theorem command_reports (users : Z) (c : R) (K : nat) (w : World) :
  1 <= users ->
  (0 <= c < 1)%R ->
  (c ^ K < exp (- 12))%R ->
  fed c (Z.to_nat users * (1 + 12 * S K)) w ->
  exists rep w' rows,
    run_simulation_command users w = Ok rep w' /\
    table w' = Some rows /\
    Z.of_nat (List.length rows) = users /\
    total_profit rep = column_sum company_profit rows /\
    Z.of_nat (total_count (plan_selection rep)) = users /\
    forall k n, In (k, n) (plan_selection rep) ->
                In k ["Lite Plan"; "Standard Plan"; "Chronic Care Plan";
                      "Unlimited Plan"].
Proof.
  intros Hn Hc HK Hfed.
  set (engine := __init__ "healthcare_simulation.db").
  assert (Hne : plans engine <> []) by discriminate.
  destruct (run_total c K Hc HK engine Hne users w Hfed) as [w1 Hrun].
  destruct (run_rows_facts engine users w w1 Hrun) as [rows [Ht [Hlen _]]].
  assert (Hrows : rows <> []).
  { intros ->. simpl in Hlen. lia. }
  pose proof (analyze_nonempty w1 rows Ht Hrows) as Han.
  exists (mkReport (column_sum company_profit rows)
                   (order_by_count_desc (group_count rows))), w1, rows.
  split; [ | split; [ exact Ht | split; [ lia | split; [ reflexivity | ] ] ] ].
  - unfold run_simulation_command, bind. fold engine. rewrite Hrun. exact Han.
  - destruct (report_after_run_aux engine users w w1 _ Hrun Han) as [Hsum Hcat].
    split; [ exact Hsum | exact Hcat ].
Qed.

Lemma command_reports_witness :
  exists rep w' rows,
    run_simulation_command 2 quiet_world = Ok rep w' /\
    table w' = Some rows /\
    Z.of_nat (List.length rows) = 2 /\
    total_profit rep = column_sum company_profit rows /\
    Z.of_nat (total_count (plan_selection rep)) = 2 /\
    forall k n, In (k, n) (plan_selection rep) ->
                In k ["Lite Plan"; "Standard Plan"; "Chronic Care Plan";
                      "Unlimited Plan"].
Proof.
  apply (command_reports 2 0 1 quiet_world).
  - lia.
  - lra.
  - simpl. rewrite Rmult_0_l. apply exp_pos.
  - exact quiet_world_fed.
Defined.

(** ** The random values a run takes *)



Section Numpy.

Variable self : SimulationEngine.

Lemma draw_months_numpy (lam : R) (n : nat) :
  forall w vs w',
    USE_NUMPY w = true ->
    draw_months lam n w = Ok vs w' ->
    USE_NUMPY w' = true /\
    py_random w' = py_random w /\
    exists fs,
      np_random w = fs ++ np_random w' /\
      List.length fs = n /\
      vs = map (fun f => f lam) fs.
Proof.
  induction n as [| n IH]; intros w vs w' Hflag H; cbn [draw_months] in H.
  - inversion H; subst. split; [ exact Hflag | split; [ reflexivity | ] ].
    exists []. repeat split.
  - unfold bind in H.
    destruct (_generate_poisson_visit lam w) as [v w1 | e |] eqn:Ev;
      try discriminate.
    destruct (draw_months lam n w1) as [vs1 w2 | e |] eqn:Evs;
      try discriminate.
    inversion H; subst.
    unfold _generate_poisson_visit in Ev. rewrite Hflag in Ev.
    destruct (np_random w) as [| f rest] eqn:Enp; [ discriminate | ].
    inversion Ev; subst.
    apply IH in Evs; [ | reflexivity ].
    destruct Evs as [Hflag2 [Hpy [fs [Efs [Hlen Hvs]]]]].
    cbn [py_random np_random] in *.
    split; [ exact Hflag2 | split; [ exact Hpy | ] ].
    exists (f :: fs). simpl. rewrite Efs, Hlen, Hvs. repeat split.
Qed.

Lemma simulate_user_numpy (uid : Z) (w w' : World) (r : row) :
  USE_NUMPY w = true ->
  simulate_user self uid w = Ok r w' ->
  USE_NUMPY w' = true /\
  (exists u, py_random w = u :: py_random w') /\
  exists fs,
    np_random w = fs ++ np_random w' /\ List.length fs = 12%nat.
Proof.
  intros Hflag H.
  destruct (simulate_user_ok self uid w w' r H)
    as [u [w1 [vs [best [cost [Hu [Hvs _]]]]]]].
  pose proof (random_flag _ _ _ Hu) as Hflag1. rewrite Hflag in Hflag1.
  destruct (draw_months_numpy _ 12 _ _ _ Hflag1 Hvs)
    as [Hflag2 [Hpy [fs [Efs [Hlen _]]]]].
  unfold random in Hu. destruct (py_random w) as [| u0 rest] eqn:Epy;
    [ discriminate | ].
  inversion Hu; subst. cbn [py_random np_random] in *.
  split; [ exact Hflag2 | split ].
  - exists u. rewrite Hpy. reflexivity.
  - exists fs. auto.
Qed.

Lemma users_loop_numpy :
  forall ids acc w rows w',
    USE_NUMPY w = true ->
    users_loop self ids acc w = Ok rows w' ->
    exists used fs,
      py_random w = used ++ py_random w' /\
      List.length used = List.length ids /\
      np_random w = fs ++ np_random w' /\
      List.length fs = (12 * List.length ids)%nat.
Proof.
  induction ids as [| uid ids IH]; intros acc w rows w' Hflag H;
    cbn [users_loop] in H.
  - inversion H; subst. exists [], []. repeat split.
  - unfold bind in H.
    destruct (simulate_user self uid w) as [r w1 | e |] eqn:Er;
      try discriminate.
    destruct (simulate_user_numpy uid w w1 r Hflag Er)
      as [Hflag1 [[u Epy] [fs1 [Enp Hlen1]]]].
    destruct (IH _ _ _ _ Hflag1 H) as [used [fs2 [E2 [Hl2 [E3 Hl3]]]]].
    exists (u :: used), (fs1 ++ fs2).
    rewrite Epy, Enp, E2, E3, <- app_assoc, length_app.
    cbn [List.length app]. repeat split; lia.
Qed.

End Numpy.

(** X15: with numpy, a finished run has taken one value of
    [random.random()] and twelve values of numpy's generator for each
    row of the table, and nothing more. *)
Theorem run_numpy_draws
    (self : SimulationEngine) (n : Z) (w w' : World) :
  USE_NUMPY w = true ->
  run self n w = Ok tt w' ->
  exists rows used fs,
    table w' = Some rows /\
    py_random w = used ++ py_random w' /\
    List.length used = List.length rows /\
    np_random w = fs ++ np_random w' /\
    List.length fs = (12 * List.length rows)%nat.
Proof.
  intros Hflag Hrun. unfold run, bind, setup_db in Hrun.
  destruct (users_loop self (user_ids n) [] (with_table w (Some [])))
    as [rows w1 | e |] eqn:E; try discriminate.
  destruct (users_loop_numpy self _ _ (with_table w (Some [])) _ _ Hflag E)
    as [used [fs [Epy [Hl1 [Enp Hl2]]]]].
  destruct (users_loop_turns self _ _ _ _ _ E) as [new [Hrows [Hturns Ht]]].
  simpl in Hrows. subst new.
  pose proof (each_turn_ids self _ _ _ _ Hturns) as Hids.
  unfold insert_rows in Hrun. rewrite Ht in Hrun. simpl in Hrun.
  destruct (distinct (map user_id rows)); [ | discriminate ].
  inversion Hrun; subst. exists rows, used, fs.
  cbn [table py_random np_random with_table] in *.
  rewrite <- Hids, length_map in Hl1, Hl2. auto.
Qed.

Lemma numpy_world_run :
  run default_engine 1 numpy_world
  = Ok tt (mkWorld true [] [] (Some [scenario_A_row])).
Proof.
  apply (run_finishes default_engine 1 numpy_world
           (mkWorld true [] [] (Some []))).
  change (user_ids 1) with [1]. cbn [users_loop]. unfold bind.
  assert (Hu : random (with_table numpy_world (Some []))
               = Ok 0%R (mkWorld true [] (repeat (fun _ : R => 6) 12) (Some [])))
    by reflexivity.
  assert (Hvs : draw_months (snd (segment 0)) 12
                  (mkWorld true [] (repeat (fun _ : R => 6) 12) (Some []))
                = Ok (repeat 6 12) (mkWorld true [] [] (Some [])))
    by reflexivity.
  pose proof (scenario_A_user "healthcare_simulation.db" 1 _ _ _ _ Hu Hvs)
    as [_ H].
  rewrite segment_healthy in H by lra.
  unfold default_engine. rewrite H. reflexivity.
Qed.

Lemma run_numpy_draws_witness :
  exists rows used fs,
    Some [scenario_A_row] = Some rows /\
    [0%R] = used ++ [] /\
    List.length used = List.length rows /\
    repeat (fun _ : R => 6) 12 = fs ++ [] /\
    List.length fs = (12 * List.length rows)%nat.
Proof.
  exact (run_numpy_draws default_engine 1 numpy_world
           (mkWorld true [] [] (Some [scenario_A_row])) eq_refl numpy_world_run).
Defined.
